(** * The socket worker of the peer-to-peer layer

    A shallow embedding of [Worker] (the SocketCluster worker that guards the
    peer-to-peer handlers): the raw-frame listeners installed by
    [handlePayload], the envelope check [hasAdditionalProperties], the
    violation record [ipLastError] with its hourly purge, the admission
    middleware [handleHandshake] and the per-call middleware [handleEmit].

    JavaScript values are an inductive type; a method that can raise is a
    computation in a small state-and-exception monad whose state is the
    request payload and the sequence of effects performed so far. *)

From Stdlib Require Import ZArith Lia Ascii String.
From Stdlib Require SpecFloat.
From stdpp Require Import base option list strings gmap fin_maps pretty.

Open Scope Z_scope.
Open Scope string_scope.
Open Scope list_scope.

Set Warnings "-register-all".

(** ** JavaScript values *)

Module JS.

(** The values a decoded frame, a coordinator reply or an exception can be.
    A number is kept as an integer: the worker only asks for the type of a
    number and whether it is zero. The characters of a string stand for its
    code units. An object is the list of its own enumerable properties, the
    first entry for a name being the property. An array is the list of its
    elements with the named properties assigned to it, which a decoded
    array has none of. [VFunction] stands for the methods every object
    inherits, again with the properties assigned to it. *)
Inductive value : Type :=
| VUndefined
| VNull
| VBool (b : bool)
| VNumber (n : Z)
| VString (s : string)
| VArray (xs : list value) (named : list (string * value))
| VObject (fields : list (string * value))
| VFunction (named : list (string * value)).

(** [typeof v] *)
Definition typeof (v : value) : string :=
  match v with
  | VUndefined => "undefined"
  | VNull => "object"
  | VBool _ => "boolean"
  | VNumber _ => "number"
  | VString _ => "string"
  | VArray _ _ => "object"
  | VObject _ => "object"
  | VFunction _ => "function"
  end.

(** The boolean a value is coerced to by [if], [&&], [||] and [!]. *)
Definition truthy (v : value) : bool :=
  match v with
  | VUndefined | VNull => false
  | VBool b => b
  | VNumber n => negb (Z.eqb n 0)
  | VString s => negb (String.eqb s "")
  | VArray _ _ | VObject _ | VFunction _ => true
  end.

(** [v === "s"] *)
Definition is_string (v : value) (s : string) : bool :=
  match v with
  | VString s' => String.eqb s' s
  | _ => false
  end.

(** Lookup of an own property in a property list. *)
Fixpoint assoc (k : string) (fields : list (string * value)) : option value :=
  match fields with
  | [] => None
  | (k', v) :: rest => if String.eqb k' k then Some v else assoc k rest
  end.

(** Assignment of a property in a property list. *)
Fixpoint assign (k : string) (v : value) (fields : list (string * value))
  : list (string * value) :=
  match fields with
  | [] => [(k, v)]
  | (k', v') :: rest =>
      if String.eqb k' k then (k, v) :: rest else (k', v') :: assign k v rest
  end.

(** An [Error] object, of which the worker reads [message] only. *)
Definition Error (message : string) : value :=
  VObject [("message", VString message)].

Definition TypeError (message : string) : value :=
  VObject [("name", VString "TypeError"); ("message", VString message)].

(** The outcome of running a piece of a method body: it runs to its end
    with a value, it executes [return], or it raises. *)
Inductive outcome (A : Type) : Type :=
| Normal (a : A)
| Returned
| Thrown (e : value).
Arguments Normal {A} a.
Arguments Returned {A}.
Arguments Thrown {A} e.

(** The methods of [Object.prototype]. *)
Definition Object_prototype_methods : list string :=
  ["constructor"; "hasOwnProperty"; "isPrototypeOf"; "propertyIsEnumerable";
   "toLocaleString"; "toString"; "valueOf"; "__defineGetter__";
   "__defineSetter__"; "__lookupGetter__"; "__lookupSetter__"].

(** What a plain object answers for a name it has no own property for. *)
Definition inherited (k : string) : value :=
  if String.eqb k "__proto__" then VObject []
  else if existsb (String.eqb k) Object_prototype_methods then VFunction []
  else VUndefined.

(** [v.k] and [v[k]]. On an object the name may be any string. On the other
    values it is one of the names the worker reads from a frame, a reply or
    an exception ([event], [data], [cid], [headers], [version], [port],
    [height], [Content-Type], [ready], [authorized], [isPeerOrForger],
    [blocked], [exceededLimitOnEndpoint], [message]) or [remoteAddress],
    none of which a primitive wrapper, an array or a function has unless it
    was assigned to it. *)
Definition prop (v : value) (k : string) : outcome value :=
  match v with
  | VUndefined =>
      Thrown (TypeError
        ("Cannot read properties of undefined (reading '" +:+ k +:+ "')"))
  | VNull =>
      Thrown (TypeError
        ("Cannot read properties of null (reading '" +:+ k +:+ "')"))
  | VObject fields => Normal (default (inherited k) (assoc k fields))
  | VArray _ named | VFunction named =>
      Normal (default VUndefined (assoc k named))
  | _ => Normal VUndefined
  end.

(** [v.k = x] in strict mode, for a name that is neither an array index nor
    [length]: an object, an array and a function take the property, null and
    undefined raise on it, and so does a primitive. *)
Definition set_prop (v : value) (k : string) (x : value) : outcome value :=
  match v with
  | VUndefined =>
      Thrown (TypeError
        ("Cannot set properties of undefined (setting '" +:+ k +:+ "')"))
  | VNull =>
      Thrown (TypeError
        ("Cannot set properties of null (setting '" +:+ k +:+ "')"))
  | VObject fields => Normal (VObject (assign k x fields))
  | VArray xs named => Normal (VArray xs (assign k x named))
  | VFunction named => Normal (VFunction (assign k x named))
  | _ => Thrown (TypeError ("Cannot create property '" +:+ k +:+ "'"))
  end.

(** The index names "0", "1", ... of a sequence of [n] elements. *)
Definition indices (n : nat) : list string := pretty <$> seq 0 n.

(** [Object.keys(v)] *)
Definition Object_keys (v : value) : outcome (list string) :=
  match v with
  | VUndefined | VNull =>
      Thrown (TypeError "Cannot convert undefined or null to object")
  | VObject fields => Normal (fields.*1)
  | VArray xs named => Normal (indices (length xs) ++ named.*1)
  | VString s => Normal (indices (String.length s))
  | VFunction named => Normal (named.*1)
  | _ => Normal []
  end.

(** [s.split(".")] *)
Fixpoint split_dot (s : string) : list string :=
  match s with
  | EmptyString => [EmptyString]
  | String c rest =>
      if Ascii.eqb c "."%char then EmptyString :: split_dot rest
      else match split_dot rest with
           | [] => [String c EmptyString]
           | seg :: segs => String c seg :: segs
           end
  end.

(** [xs.includes(s)] on an array of strings. *)
Definition includes (xs : list string) (s : string) : bool :=
  existsb (String.eqb s) xs.

(** The text of a value inside a template literal. *)
Fixpoint ToString (v : value) : string :=
  match v with
  | VUndefined => "undefined"
  | VNull => "null"
  | VBool true => "true"
  | VBool false => "false"
  | VNumber n => pretty n
  | VString s => s
  | VArray xs _ =>
      (fix join (l : list value) : string :=
         let element x :=
           match x with
           | VUndefined | VNull => ""
           | _ => ToString x
           end in
         match l with
         | [] => ""
         | [x] => element x
         | x :: rest => element x +:+ "," +:+ join rest
         end) xs
  | VObject _ => "[object Object]"
  | VFunction _ => "function () { [native code] }"
  end.

(** The name under which an array element that may be missing is used as a
    property key. *)
Definition key_of (o : option string) : string := default "undefined" o.

End JS.
Import JS.

(** Code that can raise but touches no state runs in [outcome]. *)
#[export] Instance outcome_ret : MRet outcome := fun A a => Normal a.
#[export] Instance outcome_bind : MBind outcome := fun A B f m =>
  match m with
  | Normal a => f a
  | Returned => Returned
  | Thrown e => Thrown e
  end.

(** ** What the worker is given

    The libraries and the platform the worker calls, and the coordinator
    behind [sendToMaster]. *)

(** What [ajv.validate(schema, data)] does. *)
Inductive ajv_result : Type :=
| Valid
| Invalid
| AjvThrows (message : string).

Class Externals : Type := {
  (** [JSON.parse], [None] when it raises a [SyntaxError]. *)
  JSON_parse : string -> option value;
  (** The table [requestSchemas] of the schemas module, an object of objects
      of schema documents. *)
  requestSchemas : value;
  ajv_validate : value -> value -> ajv_result;
  (** [cidr(ip + "/24")] of the ip package. *)
  cidr24 : string -> string;
  (** [this.sendToMaster(message, callback)]: the [(err, res)] the callback
      is called with. A run of a middleware sends no message twice. *)
  sendToMaster : value -> value * value
}.

(** ** Clock readings in seconds

    [new Date().getTime()] is a whole number of milliseconds; the heartbeat
    check divides it by 1000 and subtracts in double precision. *)

(** The double that holds the integer [z], exactly up to 2^53. *)
Definition double_of_Z (z : Z) : SpecFloat.spec_float :=
  SpecFloat.binary_normalize 53 1024 z 0 false.

(** [new Date().getTime() / 1000] for the clock reading [ms]. *)
Definition seconds (ms : Z) : SpecFloat.spec_float :=
  SpecFloat.SFdiv 53 1024 (double_of_Z ms) (double_of_Z 1000).

(** [timeNow - ws._lastPingTime < 1], from the two clock readings in
    milliseconds. *)
Definition ping_within_second (now last : Z) : bool :=
  SpecFloat.SFltb
    (SpecFloat.SFsub 53 1024 (seconds now) (seconds last))
    (double_of_Z 1).

(** The mantissa, at the exponent -22, of the quotient by 1000 of a clock
    reading: the quotient of the reading by 1000 * 2^-22, rounded to the
    nearest integer, to the even one in a tie. *)
Definition seconds_mantissa (ms : Z) : Z :=
  SpecFloat.round_nearest_even
    (ms * 2 ^ 65 / 8796093022208000)
    (SpecFloat.new_location 8796093022208000 ((ms * 2 ^ 65) mod 8796093022208000)).

(** ** The worker and its sockets *)

Definition MINUTE_IN_MILLISECONDS : Z := 1000 * 60.
Definition HOUR_IN_MILLISECONDS : Z := MINUTE_IN_MILLISECONDS * 60.

(** [this.config], as [loadConfiguration] got it from the coordinator. *)
Record Config : Type := {
  blacklist : option (list string);
  maxSameSubnetPeers : Z
}.

Record Worker : Type := {
  config : Config;
  handlers : list string;
  ipLastError : gmap string Z
}.

Definition set_ipLastError (m : gmap string Z) (W : Worker) : Worker :=
  {| config := config W; handlers := handlers W; ipLastError := m |}.

(** The callback [run] gives to [setInterval]: every hour the record of
    violations is replaced by an empty one. *)
Definition purge (W : Worker) : Worker := set_ipLastError ∅ W.

(** The fields [handlePayload] keeps on a raw socket, and whether
    [ws.terminate()] has been called on it. [_lastPingTime] holds the clock
    reading in milliseconds it was computed from; the number stored is
    [seconds] of it. *)
Record WebSocket : Type := {
  _disconnected : bool;
  _lastPingTime : option Z;
  _handshake : bool;
  terminated : bool
}.

Definition fresh_ws : WebSocket :=
  {| _disconnected := false; _lastPingTime := None; _handshake := false;
     terminated := false |}.

Definition ws_terminate (ws : WebSocket) : WebSocket :=
  {| _disconnected := _disconnected ws; _lastPingTime := _lastPingTime ws;
     _handshake := _handshake ws; terminated := true |}.

Definition set_disconnected (ws : WebSocket) : WebSocket :=
  {| _disconnected := true; _lastPingTime := _lastPingTime ws;
     _handshake := _handshake ws; terminated := terminated ws |}.

Definition set_handshake (ws : WebSocket) : WebSocket :=
  {| _disconnected := _disconnected ws; _lastPingTime := _lastPingTime ws;
     _handshake := true; terminated := terminated ws |}.

Definition set_lastPingTime (t : Z) (ws : WebSocket) : WebSocket :=
  {| _disconnected := _disconnected ws; _lastPingTime := Some t;
     _handshake := _handshake ws; terminated := terminated ws |}.

(** [setErrorForIpAndTerminate(ws, req)] when the clock reads [now] and
    [req.socket.remoteAddress] is [ip]. *)
Definition setErrorForIpAndTerminate (now : Z) (ip : string)
  (st : Worker * WebSocket) : Worker * WebSocket :=
  (set_ipLastError (<[ip := now]> (ipLastError st.1)) st.1, ws_terminate st.2).

(** ** The envelope check *)

Section Envelope.
Context `{Externals}.

(** A [filter(...).length] that is not zero. *)
Definition some_key_outside (allowed : list string) (keys : list string) : bool :=
  negb (Nat.eqb (length (List.filter (fun key => negb (includes allowed key)) keys)) 0).

(** [v.split(".")] *)
Definition split (v : value) : outcome (list string) :=
  match v with
  | VString s => Normal (split_dot s)
  | VUndefined | VNull =>
      Thrown (TypeError "Cannot read properties of undefined (reading 'split')")
  | _ => Thrown (TypeError "object.event.split is not a function")
  end.

(** [x && typeof x !== ty] *)
Definition present_with_other_type (x : value) (ty : string) : bool :=
  truthy x && negb (String.eqb (typeof x) ty).

(** The part of [hasAdditionalProperties] on [object.data.data]: the schema
    is looked up outside the [try], the validation runs inside it. *)
Definition payload_fails_schema (event : list string) (payload : value)
  : outcome bool :=
  let version := key_of (event !! 1%nat) in
  let handler := key_of (event !! 2%nat) in
  by_version ← prop requestSchemas version;
  schema ← prop by_version handler;
  if truthy schema then
    match ajv_validate schema payload with
    | Invalid => Normal true
    | Valid => Normal false
    | AjvThrows _ => Normal false
    end
  else Normal false.

(** The part of [hasAdditionalProperties] on [object.data.headers]. *)
Definition headers_malformed (headers : value) : outcome bool :=
  keys ← Object_keys headers;
  if some_key_outside ["version"; "port"; "height"; "Content-Type"] keys
  then Normal true
  else
    version ← prop headers "version";
    port ← prop headers "port";
    content_type ← prop headers "Content-Type";
    height ← prop headers "height";
    Normal (present_with_other_type version "string"
            || present_with_other_type port "number"
            || present_with_other_type content_type "string"
            || present_with_other_type height "number").

Definition hasAdditionalProperties (object : value) : outcome bool :=
  keys ← Object_keys object;
  if some_key_outside ["event"; "data"; "cid"] keys then Normal true
  else
    object_event ← prop object "event";
    event ← split object_event;
    shape ←
      (if negb (is_string object_event "#handshake")
          && negb (is_string object_event "#disconnect")
       then
         if negb (Nat.eqb (length event) 3) then Normal true
         else
           data ← prop object "data";
           data_keys ← Object_keys data;
           Normal (some_key_outside ["data"; "headers"] data_keys)
       else Normal false);
    if (shape : bool) then Normal true
    else
      data ← prop object "data";
      payload ← prop data "data";
      schema ←
        (if truthy payload then payload_fails_schema event payload
         else Normal false);
      if (schema : bool) then Normal true
      else
        headers ← prop data "headers";
        if truthy headers then headers_malformed headers
        else Normal false.

End Envelope.

(** ** The listeners of [handlePayload] *)

Section Payload.
Context `{Externals}.

(** [this.handlers.includes(v)] *)
Definition handlers_include (hs : list string) (v : value) : bool :=
  match v with
  | VString s => includes hs s
  | _ => false
  end.

(** The condition of the last [else if] of the message listener, where
    [event] is [parsed.event]. *)
Definition violates_envelope (W : Worker) (parsed event : value) : outcome bool :=
  if negb (String.eqb (typeof event) "string") then Normal true
  else
    data ← prop parsed "data";
    if negb (String.eqb (typeof data) "object") then Normal true
    else
      extra ← hasAdditionalProperties parsed;
      if (extra : bool) then Normal true
      else
        cid ← prop parsed "cid";
        if negb (String.eqb (typeof cid) "number")
           && (is_string event "#disconnect"
               && negb (String.eqb (typeof cid) "undefined"))
        then Normal true
        else Normal (negb (handlers_include (handlers W) event)).

(** The body of the [try] of the message listener, after [JSON.parse]. *)
Definition on_parsed (now : Z) (ip : string) (parsed : value)
  (st : Worker * WebSocket) : outcome (Worker * WebSocket) :=
  event ← prop parsed "event";
  if is_string event "#disconnect" then Normal (st.1, set_disconnected st.2)
  else if is_string event "#handshake" then
    let st' := if _handshake st.2 then setErrorForIpAndTerminate now ip st else st in
    Normal (st'.1, set_handshake st'.2)
  else
    bad ← violates_envelope st.1 parsed event;
    Normal (if (bad : bool) then setErrorForIpAndTerminate now ip st else st).

(** The [try] around it: whatever the body raises is a violation. *)
Definition on_frame (now : Z) (ip : string) (parsed : value)
  (st : Worker * WebSocket) : Worker * WebSocket :=
  match on_parsed now ip parsed st with
  | Normal st' => st'
  | _ => setErrorForIpAndTerminate now ip st
  end.

(** [ws._lastPingTime && timeNow - ws._lastPingTime < 1]. The number stored
    for the clock reading 0 is 0, which is falsy ([seconds_zero]); the one
    stored for another reading is its quotient by 1000, which is not 0
    ([seconds_spec] has it for the readings of these decades). *)
Definition ping_too_early (now : Z) (ws : WebSocket) : bool :=
  match _lastPingTime ws with
  | Some last => negb (Z.eqb last 0) && ping_within_second now last
  | None => false
  end.

(** The listener of "message" on the raw socket of [ip], run when the clock
    reads [now]. *)
Definition handlePayload_message (now : Z) (ip : string) (message : string)
  (st : Worker * WebSocket) : Worker * WebSocket :=
  if _disconnected st.2 then setErrorForIpAndTerminate now ip st
  else if String.eqb message "#2" then
    let st' := if ping_too_early now st.2
               then setErrorForIpAndTerminate now ip st else st in
    (st'.1, set_lastPingTime now st'.2)
  else if Nat.ltb (String.length message) 10 then
    setErrorForIpAndTerminate now ip st
  else
    match JSON_parse message with
    | None => setErrorForIpAndTerminate now ip st
    | Some parsed => on_frame now ip parsed st
    end.

(** The listeners of "ping" and "pong". *)
Definition handlePayload_ping (now : Z) (ip : string) (st : Worker * WebSocket)
  : Worker * WebSocket :=
  setErrorForIpAndTerminate now ip st.

Definition handlePayload_pong (now : Z) (ip : string) (st : Worker * WebSocket)
  : Worker * WebSocket :=
  setErrorForIpAndTerminate now ip st.

(** The frames of one connection, each with the clock reading at which its
    listener runs. *)
Fixpoint handlePayload_messages (ip : string) (frames : list (Z * string))
  (st : Worker * WebSocket) : Worker * WebSocket :=
  match frames with
  | [] => st
  | (now, message) :: rest =>
      handlePayload_messages ip rest (handlePayload_message now ip message st)
  end.

End Payload.

(** ** Middleware: effects and the monad they run in *)

(** What a middleware does to the outside, in the order it does it. *)
Inductive effect : Type :=
| SendToMaster (message : value)
| SocketDestroy
| SocketTerminate
| Next (err : option value)
| ConsoleError (text : string).

(** The state of a run: [req.data], which [handleEmit] updates, and the
    effects so far. *)
Record world : Type := {
  req_data : value;
  effects : list effect
}.

Definition M (A : Type) : Type := world -> outcome A * world.

#[export] Instance M_ret : MRet M := fun A a w => (Normal a, w).
#[export] Instance M_bind : MBind M := fun A B f m w =>
  match m w with
  | (Normal a, w') => f a w'
  | (Returned, w') => (Returned, w')
  | (Thrown e, w') => (Thrown e, w')
  end.

Definition lift {A : Type} (o : outcome A) : M A := fun w => (o, w).

(** The state after the effects [es] have been performed. *)
Definition after (w : world) (es : list effect) : world :=
  {| req_data := req_data w; effects := effects w ++ es |}.

(** The state with [d] for [req.data]. *)
Definition with_data (d : value) (w : world) : world :=
  {| req_data := d; effects := effects w |}.

Definition perform (e : effect) : M unit := fun w => (Normal (), after w [e]).

Definition get_data : M value := fun w => (Normal (req_data w), w).

Definition put_data (d : value) : M unit := fun w => (Normal (), with_data d w).

(** [return;] *)
Definition return_ {A : Type} : M A := fun w => (Returned, w).

(** [try { body } catch (e) { handler }] *)
Definition try_catch (body : M unit) (handler : value -> M unit) : M unit :=
  fun w =>
    match body w with
    | (Thrown e, w') => handler e w'
    | r => r
    end.

(** The body of an [async] method: [Normal] is the promise fulfilled,
    [Thrown] the promise rejected. *)
Definition async (body : M unit) : M unit := fun w =>
  match body w with
  | (Returned, w') => (Normal (), w')
  | r => r
  end.

(** A promise nobody awaits: its effects happen, its outcome is dropped. The
    effects are listed where the promise is created: the message goes out
    there, and what follows the reply of the coordinator is listed with it,
    ahead of what the method does next. *)
Definition not_awaited {A : Type} (m : M A) : M unit := fun w =>
  (Normal (), (m w).2).

Section Middleware.
Context `{Externals}.

(** [this.sendToMasterAsync(endpoint, data)], where [data] lists the
    properties of the object literal passed, awaited. *)
Definition sendToMasterAsync (endpoint : string) (data : list (string * value))
  : M value :=
  let message := VObject (("endpoint", VString endpoint) :: data) in
  _ ← perform (SendToMaster message);
  let '(err, res) := sendToMaster message in
  if truthy err then lift (Thrown err) else mret res.

(** [this.log(message, level)] *)
Definition log (message : value) (level : string) : M unit :=
  async (try_catch
    (_ ← sendToMasterAsync "p2p.utils.log"
           [("data", VObject [("level", VString level); ("message", message)])];
     mret ())
    (fun e =>
       perform (ConsoleError
         ("Error while trying to log the following message: " +:+ ToString message)))).

Definition ip_data (ip : string) : string * value :=
  ("data", VObject [("ip", VString ip)]).

(** *** Admission *)

(** [this.scServer.clients] and [this.scServer.pendingClients], by socket
    id. *)
Record Client : Type := { remoteAddress : string }.

Record SCServer : Type := {
  clients : gmap string Client;
  pendingClients : gmap string Client
}.

(** The first condition of [handleHandshake]. *)
Definition penalized (W : Worker) (now : Z) (ip : string) : bool :=
  match ipLastError W !! ip with
  | Some last => negb (Z.eqb last 0) && Z.ltb (now - MINUTE_IN_MILLISECONDS) last
  | None => false
  end.

(** [Object.values({ ...clients, ...pendingClients })] *)
Definition all_sockets (server : SCServer) : list Client :=
  (map_to_list (pendingClients server ∪ clients server)).*2.

Definition sameSubnetSockets (server : SCServer) (ip : string) : list Client :=
  let cidrRemoteAddress := cidr24 ip in
  List.filter
    (fun client => String.eqb (cidr24 (remoteAddress client)) cidrRemoteAddress)
    (all_sockets server).

(** [handleHandshake(req, next)] for a request from [ip] when the clock
    reads [now]. *)
Definition handleHandshake (W : Worker) (server : SCServer) (now : Z)
  (ip : string) : M unit :=
  async (
    if penalized W now ip then
      _ ← perform SocketDestroy; return_
    else
      res ← sendToMasterAsync "p2p.internal.isBlockedByRateLimit" [ip_data ip];
      data ← lift (prop res "data");
      let isBlacklisted := includes (default [] (blacklist (config W))) ip in
      blocked ← lift (prop data "blocked");
      if truthy blocked || isBlacklisted then
        _ ← perform SocketDestroy; return_
      else
        if Z.ltb (maxSameSubnetPeers (config W))
                 (Z.of_nat (length (sameSubnetSockets server ip)))
        then _ ← perform SocketDestroy; return_
        else perform (Next None)).

(** *** Authorization *)

(** The condition on [req.data] before the [try] of [handleEmit]. *)
Definition lacks_basic_format (data : value) : outcome bool :=
  if negb (String.eqb (typeof data) "object") then Normal true
  else
    payload ← prop data "data";
    if negb (String.eqb (typeof payload) "object") then Normal true
    else
      headers ← prop data "headers";
      Normal (negb (String.eqb (typeof headers) "object")).

(** The detached call of [p2p.internal.acceptNewPeer]. *)
Definition acceptNewPeer (ip : string) : M unit :=
  data ← get_data;
  headers ← lift (prop data "headers");
  not_awaited (try_catch
    (_ ← sendToMasterAsync "p2p.internal.acceptNewPeer"
           [ip_data ip; ("headers", headers)];
     mret ())
    (fun ex =>
       message ← lift (prop ex "message");
       log (VString ("Failed to accept new peer " +:+ ip +:+ ": "
                     +:+ ToString message))
           "debug")).

(** [req.data.headers.remoteAddress = req.socket.remoteAddress] *)
Definition attach_remoteAddress (ip : string) : M unit :=
  data ← get_data;
  headers ← lift (prop data "headers");
  headers' ← lift (set_prop headers "remoteAddress" (VString ip));
  data' ← lift (set_prop data "headers" headers');
  put_data data'.

(** The branch [version === "peer"]. *)
Definition authorize_peer (ip : string) (handler : option string) : M unit :=
  peer_schemas ← lift (prop requestSchemas "peer");
  requestSchema ← lift (prop peer_schemas (key_of handler));
  _ ← (if bool_decide (handler = Some "postTransactions")
          || bool_decide (handler = Some "postBlock")
       then
         res ← sendToMasterAsync "p2p.internal.isPeerOrForger" [ip_data ip];
         data ← lift (prop res "data");
         isPeerOrForger ← lift (prop data "isPeerOrForger");
         if negb (truthy isPeerOrForger) then
           _ ← perform SocketTerminate; return_
         else mret ()
       else if truthy requestSchema then
         data ← get_data;
         payload ← lift (prop data "data");
         match ajv_validate requestSchema payload with
         | Invalid => _ ← perform SocketTerminate; return_
         | Valid => mret ()
         | AjvThrows message => lift (Thrown (Error message))
         end
       else mret ());
  acceptNewPeer ip.

(** The body of the [try] of [handleEmit]. *)
Definition authorize (event ip : string) : M unit :=
  let parts := split_dot event in
  let prefix := parts !! 0%nat in
  let version := parts !! 1%nat in
  let handler := parts !! 2%nat in
  if negb (bool_decide (prefix = Some "p2p")) then
    _ ← perform SocketTerminate; return_
  else
    res ← sendToMasterAsync "p2p.utils.isAppReady" [];
    data ← lift (prop res "data");
    isAppReady ← lift (prop data "ready");
    if negb (truthy isAppReady) then
      _ ← perform (Next (Some (Error "App is not ready."))); return_
    else
      _ ← (if bool_decide (version = Some "internal") then
             res ← sendToMasterAsync "p2p.utils.isForgerAuthorized" [ip_data ip];
             data ← lift (prop res "data");
             authorized ← lift (prop data "authorized");
             if negb (truthy authorized) then
               _ ← perform SocketTerminate; return_
             else mret ()
           else if bool_decide (version = Some "peer") then
             authorize_peer ip handler
           else
             _ ← perform SocketTerminate; return_);
      attach_remoteAddress ip.

(** The [catch] of [handleEmit]. *)
Definition authorize_failed (e : value) : M unit :=
  message ← lift (prop e "message");
  _ ← not_awaited (log message "error");
  _ ← perform SocketTerminate;
  return_.

(** [handleEmit(req, next)] for a call of [event] from [ip]; [req.data] is
    in the state. *)
Definition handleEmit (event ip : string) : M unit :=
  async (
    if Nat.ltb 128 (String.length event) then
      _ ← perform SocketTerminate; return_
    else
      res ← sendToMasterAsync "p2p.internal.getRateLimitStatus"
              [("data", VObject [("ip", VString ip); ("endpoint", VString event)])];
      data ← lift (prop res "data");
      exceededLimitOnEndpoint ← lift (prop data "exceededLimitOnEndpoint");
      if truthy exceededLimitOnEndpoint then
        _ ← perform SocketTerminate; return_
      else
        req_data ← get_data;
        malformed ← lift (lacks_basic_format req_data);
        if (malformed : bool) then
          _ ← perform SocketTerminate; return_
        else
          _ ← try_catch (authorize event ip) authorize_failed;
          perform (Next None)).

End Middleware.

(** ** Startup and dispatch *)

(** The characters of a string, each as a string of its own. *)
Fixpoint characters (s : string) : list value :=
  match s with
  | EmptyString => []
  | String c rest => VString (String c EmptyString) :: characters rest
  end.

(** The entries of a property list that are properties: the first one for
    each name. *)
Fixpoint visible (fields : list (string * value)) : list (string * value) :=
  match fields with
  | [] => []
  | (k, v) :: rest =>
      (k, v) :: List.filter (fun kv => negb (String.eqb kv.1 k)) (visible rest)
  end.

(** The own enumerable properties of a value, in the order the value lists
    them, as a spread, [Object.entries] and [Object.values] see them. *)
Definition own_properties (v : value) : list (string * value) :=
  match v with
  | VObject fields => visible fields
  | VArray xs named => visible (zip (indices (length xs)) xs ++ named)
  | VString s => zip (indices (String.length s)) (characters s)
  | VFunction named => visible named
  | _ => []
  end.

(** [Object.entries(v)] *)
Definition Object_entries (v : value) : outcome (list (string * value)) :=
  match v with
  | VUndefined | VNull =>
      Thrown (TypeError "Cannot convert undefined or null to object")
  | _ => Normal (own_properties v)
  end.

(** [Object.values(v)] *)
Definition Object_values (v : value) : outcome (list value) :=
  match v with
  | VUndefined | VNull =>
      Thrown (TypeError "Cannot convert undefined or null to object")
  | _ => Normal (own_properties v).*2
  end.

(** [{ ...base, ...v }]: a property of [v] replaces the one [base] has under
    its name, at the place of that one, and comes last otherwise. *)
Definition spread_into (base : list (string * value)) (v : value)
  : list (string * value) :=
  fold_left (fun fields kv => assign kv.1 kv.2 fields) (own_properties v) base.

Definition set_handlers (hs : list string) (W : Worker) : Worker :=
  {| config := config W; handlers := hs; ipLastError := ipLastError W |}.

(** The name [loadHandlers] pushes for a handler of a version. *)
Definition handler_name (version : string) (handler : value) : string :=
  "p2p." +:+ version +:+ "." +:+ ToString handler.

(** The loops of [loadHandlers] over the entries of the reply: how they end
    and what [this.handlers] holds then. *)
Fixpoint push_handlers (entries : list (string * value)) (hs : list string)
  : outcome unit * list string :=
  match entries with
  | [] => (Normal (), hs)
  | (version, handlers) :: rest =>
      match Object_values handlers with
      | Normal names => push_handlers rest (hs ++ (handler_name version <$> names))
      | Returned => (Returned, hs)
      | Thrown e => (Thrown e, hs)
      end
  end.

Section Startup.
Context `{Externals}.

(** [this.sendToMasterAsync(endpoint, data)] for a [data] that is a value
    and not an object literal, awaited. *)
Definition sendToMasterAsync_with (endpoint : string) (data : value) : M value :=
  let message := VObject (spread_into [("endpoint", VString endpoint)] data) in
  _ ← perform (SendToMaster message);
  let '(err, res) := sendToMaster message in
  if truthy err then lift (Thrown err) else mret res.

(** [loadHandlers()]: how its promise settles, the worker and the state it
    leaves. *)
Definition loadHandlers (W : Worker) (w : world) : outcome unit * Worker * world :=
  match (res ← sendToMasterAsync "p2p.utils.getHandlers" [];
         lift (prop res "data")) w with
  | (Normal data, w') =>
      match Object_entries data with
      | Normal entries =>
          let '(o, hs) := push_handlers entries (handlers W) in
          (o, set_handlers hs W, w')
      | Returned => (Normal (), W, w')
      | Thrown e => (Thrown e, W, w')
      end
  | (Returned, w') => (Normal (), W, w')
  | (Thrown e, w') => (Thrown e, W, w')
  end.

(** The listener [handleConnection] puts on a socket for [handler]: the
    arguments [(err, result)] it calls [res] with. *)
Definition dispatch (handler : string) (data : value) : M (value * value) :=
  fun w =>
    match sendToMasterAsync_with handler data w with
    | (Normal reply, w') => (Normal (VUndefined, reply), w')
    | (Returned, w') => (Returned, w')
    | (Thrown e, w') => (Normal (e, VUndefined), w')
    end.

(** [handleConnection(socket)]: the events the socket listens to, each with
    its listener. *)
Definition handleConnection (W : Worker)
  : list (string * (value -> M (value * value))) :=
  (fun handler => (handler, dispatch handler)) <$> handlers W.

End Startup.

(** A string without a dot. *)
Fixpoint dotless (s : string) : bool :=
  match s with
  | EmptyString => true
  | String c rest => negb (Ascii.eqb c "."%char) && dotless rest
  end.

(** ** Vocabulary of the statements *)

Section Vocabulary.
Context `{Externals}.

(** The coordinator answers [message] with [reply]. *)
Definition answers (message reply : value) : Prop :=
  exists err, sendToMaster message = (err, reply) /\ truthy err = false.

(** The coordinator rejects [message] with [err]. *)
Definition rejects (message err : value) : Prop :=
  exists res, sendToMaster message = (err, res) /\ truthy err = true.

(** The reply to [message] has the boolean-like [field] under [data]. *)
Definition answers_field (message : value) (field : string) (v : value) : Prop :=
  exists reply data,
    answers message reply /\ prop reply "data" = Normal data
    /\ prop data field = Normal v.

(** The messages of the round trips. *)
Definition request (endpoint : string) (data : list (string * value)) : value :=
  VObject (("endpoint", VString endpoint) :: data).

Definition isBlockedByRateLimit_request (ip : string) : value :=
  request "p2p.internal.isBlockedByRateLimit" [ip_data ip].

Definition getRateLimitStatus_request (ip event : string) : value :=
  request "p2p.internal.getRateLimitStatus"
    [("data", VObject [("ip", VString ip); ("endpoint", VString event)])].

Definition isAppReady_request : value := request "p2p.utils.isAppReady" [].

Definition isForgerAuthorized_request (ip : string) : value :=
  request "p2p.utils.isForgerAuthorized" [ip_data ip].

Definition isPeerOrForger_request (ip : string) : value :=
  request "p2p.internal.isPeerOrForger" [ip_data ip].

Definition acceptNewPeer_request (ip : string) (headers : value) : value :=
  request "p2p.internal.acceptNewPeer" [ip_data ip; ("headers", headers)].

Definition log_request (message : value) (level : string) : value :=
  request "p2p.utils.log"
    [("data", VObject [("level", VString level); ("message", message)])].

(** What [this.log(message, level)] does to the outside. *)
Definition log_effects (message : value) (level : string) : list effect :=
  SendToMaster (log_request message level)
  :: (if truthy (sendToMaster (log_request message level)).1
      then [ConsoleError
              ("Error while trying to log the following message: "
               +:+ ToString message)]
      else []).

(** What the detached [acceptNewPeer] call does to the outside. *)
Definition acceptNewPeer_effects (ip : string) (headers : value) : list effect :=
  SendToMaster (acceptNewPeer_request ip headers)
  :: (let err := (sendToMaster (acceptNewPeer_request ip headers)).1 in
      if truthy err then
        match prop err "message" with
        | Normal message =>
            log_effects
              (VString ("Failed to accept new peer " +:+ ip +:+ ": "
                        +:+ ToString message)) "debug"
        | _ => []
        end
      else []).

(** A run passes the checks of [handleEmit] that come before its [try]: the
    name is short enough, the rate limit is not exceeded, [req.data] has the
    basic format. *)
Definition passes_preliminaries (event ip : string) (w : world) : Prop :=
  (String.length event <= 128)%nat
  /\ (exists exceeded,
        answers_field (getRateLimitStatus_request ip event)
          "exceededLimitOnEndpoint" exceeded
        /\ truthy exceeded = false)
  /\ lacks_basic_format (req_data w) = Normal false.

(** The coordinator reports the application ready, or not. *)
Definition app_ready (ready : bool) : Prop :=
  exists v, answers_field isAppReady_request "ready" v /\ truthy v = ready.

(** [requestSchemas.peer[handler]] is [schema]. *)
Definition peer_schema (handler : string) (schema : value) : Prop :=
  exists by_handler,
    prop requestSchemas "peer" = Normal by_handler
    /\ prop by_handler handler = Normal schema.

(** The two handlers that accept blocks and transactions. *)
Definition privileged (handler : string) : Prop :=
  handler = "postBlock" \/ handler = "postTransactions".

(** A run of [handleHandshake] passes its checks before the one on the
    subnet. *)
Definition reaches_subnet_check (W : Worker) (now : Z) (ip : string) : Prop :=
  penalized W now ip = false
  /\ (exists blocked,
        answers_field (isBlockedByRateLimit_request ip) "blocked" blocked
        /\ truthy blocked = false)
  /\ includes (default [] (blacklist (config W))) ip = false.

(** A value [typeof] calls an object and that is one: an object or an
    array. *)
Definition is_nested (v : value) : Prop :=
  match v with
  | VObject _ | VArray _ _ => True
  | _ => False
  end.

(** The primitive type stated for a header. *)
Definition header_type (k : string) : string :=
  if String.eqb k "port" || String.eqb k "height" then "number" else "string".

Definition header_names : list string :=
  ["version"; "port"; "height"; "Content-Type"].

(** [e.message] of a value that was raised. *)
Definition message_of (e : value) : value :=
  match prop e "message" with
  | Normal message => message
  | _ => VUndefined
  end.

(** Effects that decide nothing about the socket or the call: messages to
    the coordinator and lines on the console. *)
Definition silent (e : effect) : Prop :=
  match e with
  | SendToMaster _ | ConsoleError _ => True
  | _ => False
  end.

Definition quiet (es : list effect) : Prop := Forall silent es.

(** The error [handleEmit] passes to [next] when the application is not
    ready. *)
Definition not_ready : effect := Next (Some (Error "App is not ready.")).

(** A pure computation that does not [return] and raises only values that
    are not null or undefined. *)
Definition safe {A : Type} (o : outcome A) : Prop :=
  match o with
  | Normal _ => True
  | Returned => False
  | Thrown e => truthy e = true
  end.

(** The shape of every run of a piece of the [try] of [handleEmit]: it
    falls through or raises after quiet effects, or it returns right after
    terminating the socket or passing the not-ready error to [next]. *)
Definition shaped {A : Type} (m : M A) : Prop :=
  forall w : world, exists q : list effect,
    quiet q
    /\ match (m w).1 with
       | Normal _ => effects (m w).2 = effects w ++ q
       | Thrown e => truthy e = true /\ effects (m w).2 = effects w ++ q
       | Returned =>
           exists last : effect,
             (last = SocketTerminate \/ last = not_ready)
             /\ effects (m w).2 = effects w ++ q ++ [last]
       end.

End Vocabulary.

(** The decoded frame of a call: [{ event, data, cid }]. *)
Definition call_frame (event : string) (data : list (string * value))
  (cid : value) : value :=
  VObject [("event", VString event); ("data", VObject data); ("cid", cid)].

(** The worker with another validator in place of [ajv.validate]. *)
Definition with_validator (E : Externals)
  (validate : value -> value -> ajv_result) : Externals :=
  {| JSON_parse := @JSON_parse E;
     requestSchemas := @requestSchemas E;
     ajv_validate := validate;
     cidr24 := @cidr24 E;
     sendToMaster := @sendToMaster E |}.

(** ** A concrete setting

    A coordinator that answers by endpoint, the /24 network of a dotted
    quad, a schema table with two handlers, and the frames used below. *)

Module Demo.

Definition coordinator (replies : list (string * (value * value)))
  (message : value) : value * value :=
  match prop message "endpoint" with
  | Normal (VString endpoint) =>
      default (VUndefined, VObject [("data", VObject [])])
              (snd <$> List.find (fun r => String.eqb r.1 endpoint) replies)
  | _ => (VUndefined, VUndefined)
  end.

Definition reply (field : string) (v : value) : value * value :=
  (VUndefined, VObject [("data", VObject [(field, v)])]).

Definition failure (text : string) : value * value :=
  (Error text, VUndefined).

Definition cidr24_ipv4 (ip : string) : string :=
  match split_dot ip with
  | [a; b; c; _] => a +:+ "." +:+ b +:+ "." +:+ c +:+ ".0"
  | _ => ip
  end.

Definition schemas : value :=
  VObject
    [("peer",
      VObject [("getPeers", VObject [("type", VString "object")]);
               ("postBlock", VObject [("type", VString "object")])]);
     ("internal", VObject [])].

(** A validator for the schemas above: the payload must be an object. *)
Definition validate (schema payload : value) : ajv_result :=
  match payload with
  | VObject _ => Valid
  | _ => Invalid
  end.

Definition quote : string := String "034"%char EmptyString.

(** The text of the frame that announces a disconnect. *)
Definition disconnect_text : string :=
  "{" +:+ quote +:+ "event" +:+ quote +:+ ":" +:+ quote +:+ "#disconnect"
  +:+ quote +:+ "}".

Definition disconnect_frame : value :=
  VObject [("event", VString "#disconnect")].

(** [JSON.parse] on the one text used below. *)
Definition parse (text : string) : option value :=
  if String.eqb text disconnect_text then Some disconnect_frame else None.

Definition externals (replies : list (string * (value * value))) : Externals :=
  {| JSON_parse := parse;
     requestSchemas := schemas;
     ajv_validate := validate;
     cidr24 := cidr24_ipv4;
     sendToMaster := coordinator replies |}.

Definition worker (violations : gmap string Z) : Worker :=
  {| config := {| blacklist := Some []; maxSameSubnetPeers := 2 |};
     handlers := ["p2p.peer.getPeers"; "p2p.peer.postBlock"];
     ipLastError := violations |}.

(** Two established sockets of 10.0.0.0/24, one pending socket of another
    network. *)
Definition server : SCServer :=
  {| clients := {[ "a" := {| remoteAddress := "10.0.0.1" |};
                   "b" := {| remoteAddress := "10.0.0.2" |} ]};
     pendingClients := {[ "c" := {| remoteAddress := "10.0.7.9" |} ]} |}.

Definition empty_world (data : value) : world :=
  {| req_data := data; effects := [] |}.

(** The world at the start of a call whose payload is empty and whose
    headers give a version. *)
Definition call_world : world :=
  empty_world
    (VObject [("data", VObject []);
              ("headers", VObject [("version", VString "2.0.0")])]).

(** A coordinator that answers every question as asked, with the given
    readiness and recognition. *)
Definition answering (ready recognized : bool) : Externals :=
  externals
    [("p2p.utils.isAppReady", reply "ready" (VBool ready));
     ("p2p.internal.isPeerOrForger", reply "isPeerOrForger" (VBool recognized))].

(** A coordinator whose round trip to [endpoint] fails. *)
Definition failing (endpoint : string) : Externals :=
  externals
    [(endpoint, failure "coordinator unavailable");
     ("p2p.utils.isAppReady", reply "ready" (VBool true))].

End Demo.

(** ** Further vocabulary *)

(** What a listener of the raw socket of [ip] may do to the worker and the
    socket when the clock reads [now]: it leaves the configuration, the
    handlers and the records of the other addresses alone, it sets flags and
    clears none, and it either records nothing and leaves [terminated] as it
    is, or records [now] for [ip] and terminates. *)
Definition listener_step (now : Z) (ip : string)
  (st st' : Worker * WebSocket) : Prop :=
  config st'.1 = config st.1
  /\ handlers st'.1 = handlers st.1
  /\ (forall other, other <> ip ->
        ipLastError st'.1 !! other = ipLastError st.1 !! other)
  /\ (_disconnected st.2 = true -> _disconnected st'.2 = true)
  /\ (_handshake st.2 = true -> _handshake st'.2 = true)
  /\ (terminated st.2 = true -> terminated st'.2 = true)
  /\ ((st'.1 = st.1 /\ terminated st'.2 = terminated st.2)
      \/ (ipLastError st'.1 !! ip = Some now /\ terminated st'.2 = true)).

(** A piece of a middleware that leaves [req.data] as it is. *)
Definition keeps_data {A : Type} (m : M A) : Prop :=
  forall w : world, req_data (m w).2 = req_data w.

(** [d'] is [d] with the address [ip] assigned to [headers.remoteAddress]. *)
Definition attached (ip : string) (d d' : value) : Prop :=
  exists headers headers',
    prop d "headers" = Normal headers
    /\ set_prop headers "remoteAddress" (VString ip) = Normal headers'
    /\ set_prop d "headers" headers' = Normal d'.

(** Between [w] and [w'], [next()] was called. *)
Definition calls_next (w w' : world) : Prop :=
  exists es, effects w' = effects w ++ es /\ In (Next None) es.

(** Reading [req.data.headers.remoteAddress] in [d] gives [ip]. *)
Definition carries_address (ip : string) (d : value) : Prop :=
  exists headers,
    prop d "headers" = Normal headers
    /\ prop headers "remoteAddress" = Normal (VString ip).

(** A piece of [handleEmit] that changes [req.data] only when it falls
    through, and then by attaching the address. *)
Definition ends_attached {A : Type} (ip : string) (m : M A) : Prop :=
  forall w : world,
    match (m w).1 with
    | Normal _ => attached ip (req_data w) (req_data (m w).2)
    | _ => req_data (m w).2 = req_data w
    end.

Section FurtherVocabulary.
Context `{Externals}.

(** The frame [parsed] of a call of [event] has the shape of a call of a
    registered handler. *)
Definition well_formed_call (W : Worker) (parsed : value) (event : string) : Prop :=
  In event (handlers W)
  /\ length (split_dot event) = 3%nat
  /\ (exists keys, Object_keys parsed = Normal keys
        /\ Forall (fun key => In key ["event"; "data"; "cid"]) keys)
  /\ (exists data data_keys,
        prop parsed "data" = Normal data
        /\ typeof data = "object"
        /\ Object_keys data = Normal data_keys
        /\ Forall (fun key => In key ["data"; "headers"]) data_keys).

End FurtherVocabulary.

(** * Properties *)

(** ** Running the monad *)

Lemma after_after (w : world) (a b : list effect) :
  after (after w a) b = after w (a ++ b).
Proof. unfold after. simpl. by rewrite <- app_assoc. Qed.

Lemma after_with_data (d : value) (w : world) (a : list effect) :
  after (with_data d w) a = with_data d (after w a).
Proof. reflexivity. Qed.

Lemma bind_normal {A B : Type} (m : M A) (f : A -> M B) (w w' : world) (a : A) :
  m w = (Normal a, w') -> (m ≫= f) w = f a w'.
Proof. intros Hm. unfold mbind, M_bind. by rewrite Hm. Qed.

Lemma bind_thrown {A B : Type} (m : M A) (f : A -> M B) (w w' : world) (e : value) :
  m w = (Thrown e, w') -> (m ≫= f) w = (Thrown e, w').
Proof. intros Hm. unfold mbind, M_bind. by rewrite Hm. Qed.

Lemma bind_returned {A B : Type} (m : M A) (f : A -> M B) (w w' : world) :
  m w = (Returned, w') -> (m ≫= f) w = (Returned, w').
Proof. intros Hm. unfold mbind, M_bind. by rewrite Hm. Qed.

Ltac monad_unfold :=
  unfold mbind, M_bind, mret, M_ret, lift, perform, return_, async, try_catch,
    not_awaited, get_data, put_data in *.

(** Brings a final state into the shape [after w es]. *)
Ltac tidy :=
  repeat first [rewrite after_after | rewrite after_with_data];
  rewrite <- ?app_assoc; cbn [app].

Section RoundTrips.
Context `{Externals}.

Lemma sendToMasterAsync_answers endpoint data reply w :
  answers (request endpoint data) reply ->
  sendToMasterAsync endpoint data w
  = (Normal reply, after w [SendToMaster (request endpoint data)]).
Proof.
  intros (err & Hsend & Herr). unfold sendToMasterAsync, request in *.
  monad_unfold. rewrite Hsend, Herr. reflexivity.
Qed.

Lemma sendToMasterAsync_rejects endpoint data err w :
  rejects (request endpoint data) err ->
  sendToMasterAsync endpoint data w
  = (Thrown err, after w [SendToMaster (request endpoint data)]).
Proof.
  intros (res & Hsend & Herr). unfold sendToMasterAsync, request in *.
  monad_unfold. rewrite Hsend, Herr. reflexivity.
Qed.

(** A round trip either answers or rejects, and sends one message. *)
Lemma sendToMasterAsync_cases endpoint data w :
  (exists reply, answers (request endpoint data) reply
     /\ sendToMasterAsync endpoint data w
        = (Normal reply, after w [SendToMaster (request endpoint data)]))
  \/ (exists err, rejects (request endpoint data) err
     /\ sendToMasterAsync endpoint data w
        = (Thrown err, after w [SendToMaster (request endpoint data)])).
Proof.
  destruct (sendToMaster (request endpoint data)) as [err res] eqn:Hsend.
  destruct (truthy err) eqn:Herr.
  - right. exists err. split; [by exists res|].
    apply sendToMasterAsync_rejects. by exists res.
  - left. exists res. split; [by exists err|].
    apply sendToMasterAsync_answers. by exists err.
Qed.

(** [this.log] never raises, whatever the coordinator does. *)
Lemma log_runs message level w :
  log message level w = (Normal (), after w (log_effects message level)).
Proof.
  unfold log, log_effects, sendToMasterAsync, log_request, request.
  monad_unfold. simpl.
  destruct (sendToMaster _) as [err res]. simpl.
  destruct (truthy err); simpl; tidy; reflexivity.
Qed.

End RoundTrips.

(** ** The record of violations and admission *)

Section Admission.
Context `{Externals}.

Lemma penalized_spec W now ip :
  penalized W now ip = true
  <-> exists last, ipLastError W !! ip = Some last /\ last <> 0
                   /\ now - last < MINUTE_IN_MILLISECONDS.
Proof.
  unfold penalized. split.
  - destruct (ipLastError W !! ip) as [last|]; [|done].
    intros [Hz Hlt]%andb_true_iff. exists last.
    apply negb_true_iff, Z.eqb_neq in Hz. apply Z.ltb_lt in Hlt.
    repeat split; [done|lia].
  - intros (last & -> & Hz & Hlt). apply andb_true_iff. split.
    + by apply negb_true_iff, Z.eqb_neq.
    + apply Z.ltb_lt. lia.
Qed.

Lemma handleHandshake_penalized W server now ip w :
  penalized W now ip = true ->
  handleHandshake W server now ip w = (Normal (), after w [SocketDestroy]).
Proof. intros Hp. unfold handleHandshake. rewrite Hp. reflexivity. Qed.

(** Past the first check, the first thing a run does is ask the coordinator
    about the rate limit. *)
Lemma handleHandshake_asks W server now ip w :
  penalized W now ip = false ->
  exists rest,
    effects (handleHandshake W server now ip w).2
    = effects w ++ SendToMaster (isBlockedByRateLimit_request ip) :: rest.
Proof.
  intros Hp. unfold handleHandshake. rewrite Hp.
  unfold sendToMasterAsync, isBlockedByRateLimit_request, request.
  monad_unfold. simpl.
  repeat (case_match; simpl in *; simplify_eq);
    unfold after; simpl; rewrite <- ?app_assoc; simpl; eexists; reflexivity.
Qed.

Lemma handleHandshake_subnet W server now ip w :
  reaches_subnet_check W now ip ->
  handleHandshake W server now ip w
  = (Normal (),
     after w [SendToMaster (isBlockedByRateLimit_request ip);
              if Z.ltb (maxSameSubnetPeers (config W))
                       (Z.of_nat (length (sameSubnetSockets server ip)))
              then SocketDestroy else Next None]).
Proof.
  intros (Hp & (blocked & (reply & data & Hans & Hdata & Hblocked) & Hfalsy) & Hlist).
  unfold handleHandshake. rewrite Hp. unfold async.
  erewrite bind_normal by (by apply sendToMasterAsync_answers).
  monad_unfold. rewrite Hdata, Hblocked, Hfalsy, Hlist. simpl.
  destruct (Z.ltb _ _); tidy; reflexivity.
Qed.

(** C6. Right after the hourly purge of [ipLastError], no address is
    penalized, however recent its last violation was: for every address the
    admission middleware passes its first check and goes on to ask the
    coordinator about the rate limit. *)
Theorem purge_lifts_every_penalty (W : Worker) (server : SCServer) (now : Z)
  (ip : string) (w : world) :
  ipLastError (purge W) !! ip = None
  /\ penalized (purge W) now ip = false
  /\ exists rest,
       effects (handleHandshake (purge W) server now ip w).2
       = effects w ++ SendToMaster (isBlockedByRateLimit_request ip) :: rest.
Proof.
  assert (Hnone : ipLastError (purge W) !! ip = None) by apply lookup_empty.
  assert (Hp : penalized (purge W) now ip = false).
  { unfold penalized. by rewrite Hnone. }
  split; [done|]. split; [done|]. by apply handleHandshake_asks.
Qed.

(** C5. An attempt from an address whose last recorded violation is less
    than 60 seconds old has its raw socket destroyed and nothing else
    happens: no message goes to the coordinator and [next] is not called.
    When the violation is 60 seconds old or older, or there is none, the
    first check passes and the middleware goes on to ask the coordinator. The
    record is a clock reading, which is not zero. *)
Theorem admission_rejects_recent_violators (W : Worker) (server : SCServer)
  (now : Z) (ip : string) (w : world) :
  ipLastError W !! ip <> Some 0 ->
  (forall last,
     ipLastError W !! ip = Some last -> now - last < 60 * 1000 ->
     handleHandshake W server now ip w = (Normal (), after w [SocketDestroy]))
  /\ (ipLastError W !! ip = None
      \/ (exists last, ipLastError W !! ip = Some last /\ 60 * 1000 <= now - last) ->
      penalized W now ip = false
      /\ exists rest,
           effects (handleHandshake W server now ip w).2
           = effects w ++ SendToMaster (isBlockedByRateLimit_request ip) :: rest).
Proof.
  intros Hclock. split.
  - intros last Hlast Hage. apply handleHandshake_penalized.
    apply penalized_spec. exists last. repeat split; [done| |done].
    intros ->. by apply Hclock.
  - intros Hold.
    assert (Hp : penalized W now ip = false).
    { apply not_true_is_false. intros (last & Hlast & _ & Hage)%penalized_spec.
      destruct Hold as [Hnone | (last' & Hlast' & Hage')]; [congruence|].
      unfold MINUTE_IN_MILLISECONDS in Hage. simplify_eq. lia. }
    split; [done|]. by apply handleHandshake_asks.
Qed.

(** C4, as the code has it. Past the earlier checks, the attempt is
    rejected exactly when the established and pending sockets of its /24
    network number more than [maxSameSubnetPeers]; with exactly that many it
    is let through. Sockets of other networks do not count: an attempt from a
    network that hosts none is let through however full another network
    is. *)
Theorem subnet_check_rejects_above_maximum (W : Worker) (server : SCServer)
  (now : Z) (ip : string) (w : world) :
  reaches_subnet_check W now ip ->
  let hosted := Z.of_nat (length (sameSubnetSockets server ip)) in
  let asked := SendToMaster (isBlockedByRateLimit_request ip) in
  (maxSameSubnetPeers (config W) < hosted ->
   handleHandshake W server now ip w = (Normal (), after w [asked; SocketDestroy]))
  /\ (hosted <= maxSameSubnetPeers (config W) ->
      handleHandshake W server now ip w = (Normal (), after w [asked; Next None]))
  /\ (Forall (fun client => cidr24 (remoteAddress client) <> cidr24 ip)
             (all_sockets server) ->
      0 <= maxSameSubnetPeers (config W) ->
      handleHandshake W server now ip w = (Normal (), after w [asked; Next None])).
Proof.
  intros Hreach hosted asked.
  pose proof (handleHandshake_subnet W server now ip w Hreach) as Hrun.
  fold hosted asked in Hrun. repeat split.
  - intros Hlt. apply Z.ltb_lt in Hlt. by rewrite Hlt in Hrun.
  - intros Hle. apply Z.ltb_ge in Hle. by rewrite Hle in Hrun.
  - intros Hother Hmax.
    assert (Hnone : sameSubnetSockets server ip = []).
    { unfold sameSubnetSockets. induction Hother as [|c l Hc _ IH]; [done|].
      simpl. apply String.eqb_neq in Hc. by rewrite Hc. }
    assert (Hle : hosted <= maxSameSubnetPeers (config W)).
    { unfold hosted. rewrite Hnone. simpl. lia. }
    apply Z.ltb_ge in Hle. by rewrite Hle in Hrun.
Qed.

End Admission.

(** ** The shape of the runs of the authorization middleware *)

Section Shapes.
Context `{Externals}.

Lemma prop_safe v k : safe (prop v k).
Proof. destruct v; simpl; done. Qed.

Lemma set_prop_safe v k x : safe (set_prop v k x).
Proof. destruct v; simpl; done. Qed.

(** A value that is not null or undefined has every property read. *)
Lemma prop_of_truthy e k :
  truthy e = true ->
  prop e k = Normal (match prop e k with Normal v => v | _ => VUndefined end).
Proof. destruct e; simpl; done. Qed.

Lemma message_of_truthy e :
  truthy e = true -> prop e "message" = Normal (message_of e).
Proof.
  intros He. unfold message_of.
  by rewrite (prop_of_truthy e "message" He) at 1.
Qed.

Lemma lacks_basic_format_safe d : safe (lacks_basic_format d).
Proof.
  unfold lacks_basic_format. destruct d; simpl; try done.
  all: repeat (case_match; simpl; try done).
Qed.

Lemma quiet_nil : quiet [].
Proof. constructor. Qed.

Lemma quiet_app a b : quiet a -> quiet b -> quiet (a ++ b).
Proof. unfold quiet. intros. by apply Forall_app. Qed.

Lemma quiet_log_effects message level : quiet (log_effects message level).
Proof.
  unfold log_effects. constructor; [done|]. case_match; repeat constructor.
Qed.

Lemma quiet_acceptNewPeer_effects ip headers :
  quiet (acceptNewPeer_effects ip headers).
Proof.
  unfold acceptNewPeer_effects. constructor; [done|].
  repeat case_match; try apply quiet_log_effects; apply quiet_nil.
Qed.

Lemma shaped_ret {A : Type} (a : A) : shaped (mret a).
Proof. intros w. exists []. split; [apply quiet_nil|]. simpl. by rewrite app_nil_r. Qed.

Lemma shaped_lift {A : Type} (o : outcome A) : safe o -> shaped (lift o).
Proof.
  intros Ho w. exists []. split; [apply quiet_nil|].
  unfold lift. simpl. destruct o; simpl in *; rewrite ?app_nil_r; done.
Qed.

Lemma shaped_get_data : shaped get_data.
Proof. intros w. exists []. split; [apply quiet_nil|]. simpl. by rewrite app_nil_r. Qed.

Lemma shaped_put_data d : shaped (put_data d).
Proof. intros w. exists []. split; [apply quiet_nil|]. simpl. by rewrite app_nil_r. Qed.

Lemma shaped_bind {A B : Type} (m : M A) (f : A -> M B) :
  shaped m -> (forall a, shaped (f a)) -> shaped (m ≫= f).
Proof.
  intros Hm Hf w. destruct (Hm w) as (q & Hq & Hrun).
  unfold mbind, M_bind. destruct (m w) as [[a| |e] w1]; simpl in *.
  - destruct (Hf a w1) as (q' & Hq' & Hrun'). exists (q ++ q').
    split; [by apply quiet_app|].
    destruct (f a w1) as [[b| |e] w2]; simpl in *; rewrite Hrun in Hrun'.
    + by rewrite Hrun', app_assoc.
    + destruct Hrun' as (last & Hlast & ->). exists last.
      split; [done|]. by rewrite !app_assoc.
    + destruct Hrun' as [He ->]. split; [done|]. by rewrite app_assoc.
  - by exists q.
  - by exists q.
Qed.

Lemma shaped_stop (last : effect) :
  last = SocketTerminate \/ last = not_ready ->
  shaped (_ ← perform last; @return_ unit).
Proof.
  intros Hlast w. exists []. split; [apply quiet_nil|].
  simpl. exists last. done.
Qed.

Lemma shaped_sendToMasterAsync endpoint data :
  shaped (sendToMasterAsync endpoint data).
Proof.
  intros w. exists [SendToMaster (request endpoint data)].
  split; [by repeat constructor|].
  destruct (sendToMasterAsync_cases endpoint data w)
    as [(reply & _ & ->) | (err & (res & _ & Herr) & ->)]; simpl; done.
Qed.

Lemma acceptNewPeer_runs ip headers w :
  prop (req_data w) "headers" = Normal headers ->
  acceptNewPeer ip w = (Normal (), after w (acceptNewPeer_effects ip headers)).
Proof.
  intros Hh. unfold acceptNewPeer, acceptNewPeer_effects.
  unfold mbind at 1, M_bind at 1. unfold get_data.
  unfold mbind at 1, M_bind at 1. unfold lift at 1. rewrite Hh.
  unfold not_awaited, try_catch. f_equal.
  destruct (sendToMasterAsync_cases "p2p.internal.acceptNewPeer"
              [ip_data ip; ("headers", headers)] w)
    as [(reply & (err & Hs & He) & Hrun) | (err & (res & Hs & He) & Hrun)].
  - erewrite bind_normal by exact Hrun. unfold mret, M_ret. simpl.
    unfold acceptNewPeer_request. rewrite Hs. simpl. rewrite He. done.
  - erewrite bind_thrown by exact Hrun.
    unfold acceptNewPeer_request. rewrite Hs. simpl. rewrite He.
    rewrite (message_of_truthy err He).
    unfold mbind, M_bind, lift.
    rewrite log_runs. simpl. tidy. done.
Qed.

Lemma shaped_acceptNewPeer ip : shaped (acceptNewPeer ip).
Proof.
  intros w. destruct (prop (req_data w) "headers") as [headers| |e] eqn:Hh.
  - exists (acceptNewPeer_effects ip headers).
    split; [apply quiet_acceptNewPeer_effects|].
    by rewrite (acceptNewPeer_runs ip headers w Hh).
  - pose proof (prop_safe (req_data w) "headers") as Hs. by rewrite Hh in Hs.
  - exists []. split; [apply quiet_nil|].
    pose proof (prop_safe (req_data w) "headers") as Hs. rewrite Hh in Hs.
    unfold acceptNewPeer, mbind, M_bind, get_data, lift. rewrite Hh. simpl.
    by rewrite app_nil_r.
Qed.

(** Applies the rules above along the structure of a method body. *)
Ltac shape :=
  repeat first
    [ apply shaped_ret | apply shaped_get_data | apply shaped_put_data
    | apply shaped_sendToMasterAsync | apply shaped_acceptNewPeer
    | apply shaped_stop; first [by left | by right]
    | apply shaped_lift;
      first [apply prop_safe | apply set_prop_safe
            | apply lacks_basic_format_safe | done]
    | apply shaped_bind; [|intros ?]
    | case_match ].

Lemma shaped_attach_remoteAddress ip : shaped (attach_remoteAddress ip).
Proof. unfold attach_remoteAddress. shape. Qed.

Lemma shaped_authorize_peer ip handler : shaped (authorize_peer ip handler).
Proof. unfold authorize_peer. shape. Qed.

Lemma shaped_authorize event ip : shaped (authorize event ip).
Proof.
  unfold authorize. shape.
  all: first [apply shaped_authorize_peer | apply shaped_attach_remoteAddress].
Qed.

Lemma authorize_failed_runs e w :
  truthy e = true ->
  authorize_failed e w
  = (Returned, after w (log_effects (message_of e) "error" ++ [SocketTerminate])).
Proof.
  intros He. unfold authorize_failed.
  unfold mbind at 1, M_bind at 1, lift at 1. rewrite (message_of_truthy e He).
  unfold mbind at 1, M_bind at 1, not_awaited at 1. rewrite log_runs. simpl.
  unfold mbind, M_bind, perform, return_. by tidy.
Qed.

(** The [try] with its [catch]: nothing raised gets out. *)
Lemma guarded_shape event ip w :
  exists q, quiet q /\
    match (try_catch (authorize event ip) authorize_failed w).1 with
    | Normal _ =>
        effects (try_catch (authorize event ip) authorize_failed w).2
        = effects w ++ q
    | Returned =>
        exists last, (last = SocketTerminate \/ last = not_ready)
          /\ effects (try_catch (authorize event ip) authorize_failed w).2
             = effects w ++ q ++ [last]
    | Thrown _ => False
    end.
Proof.
  destruct (shaped_authorize event ip w) as (q & Hq & Hrun).
  unfold try_catch.
  destruct (authorize event ip w) as [[[]| |e] w1]; simpl in *.
  - by exists q.
  - by exists q.
  - destruct Hrun as [He Heff]. rewrite (authorize_failed_runs e w1 He). simpl.
    exists (q ++ log_effects (message_of e) "error").
    split; [apply quiet_app; [done|apply quiet_log_effects]|].
    exists SocketTerminate. split; [by left|].
    rewrite Heff. by rewrite <- !app_assoc.
Qed.

End Shapes.

(** ** Authorization *)

Section Authorization.
Context `{Externals}.

(** The run of [handleEmit] up to its [try]. *)
Lemma handleEmit_past_preliminaries event ip w :
  passes_preliminaries event ip w ->
  handleEmit event ip w
  = async (_ ← try_catch (authorize event ip) authorize_failed;
           perform (Next None))
      (after w [SendToMaster (getRateLimitStatus_request ip event)]).
Proof.
  intros (Hlen & (exceeded & (reply & d & Hans & Hd & Hv) & Hfalsy) & Hformat).
  unfold handleEmit.
  assert (Nat.ltb 128 (String.length event) = false) as -> by (apply Nat.ltb_ge; lia).
  unfold async at 1. unfold async at 1.
  erewrite bind_normal by (by apply sendToMasterAsync_answers).
  unfold mbind at 1, M_bind at 1, lift at 1. rewrite Hd.
  unfold mbind at 1, M_bind at 1, lift at 1. rewrite Hv, Hfalsy.
  unfold mbind at 1, M_bind at 1, get_data at 1.
  unfold mbind at 1, M_bind at 1, lift at 1. simpl req_data. rewrite Hformat.
  reflexivity.
Qed.

(** The run of the [try] up to the branch on the version, when the
    application is ready. *)
Lemma authorize_when_ready event ip w :
  split_dot event !! 0%nat = Some "p2p" ->
  app_ready true ->
  authorize event ip w
  = (_ ← (if bool_decide (split_dot event !! 1%nat = Some "internal") then
            res ← sendToMasterAsync "p2p.utils.isForgerAuthorized" [ip_data ip];
            data ← lift (prop res "data");
            authorized ← lift (prop data "authorized");
            if negb (truthy authorized) then
              _ ← perform SocketTerminate; return_
            else mret ()
          else if bool_decide (split_dot event !! 1%nat = Some "peer") then
            authorize_peer ip (split_dot event !! 2%nat)
          else
            _ ← perform SocketTerminate; return_);
     attach_remoteAddress ip) (after w [SendToMaster isAppReady_request]).
Proof.
  intros Hprefix (v & (reply & d & Hans & Hd & Hv) & Hready).
  unfold authorize. rewrite Hprefix.
  rewrite (bool_decide_eq_true_2 (Some "p2p" = Some "p2p") eq_refl).
  cbn [negb].
  erewrite (bind_normal (sendToMasterAsync "p2p.utils.isAppReady" []))
    by (by apply sendToMasterAsync_answers).
  unfold mbind at 1, M_bind at 1, lift at 1. rewrite Hd.
  unfold mbind at 1, M_bind at 1, lift at 1. rewrite Hv, Hready.
  reflexivity.
Qed.

Lemma authorize_when_not_ready event ip w :
  split_dot event !! 0%nat = Some "p2p" ->
  app_ready false ->
  authorize event ip w
  = (Returned, after w [SendToMaster isAppReady_request; not_ready]).
Proof.
  intros Hprefix (v & (reply & d & Hans & Hd & Hv) & Hready).
  unfold authorize. rewrite Hprefix.
  rewrite (bool_decide_eq_true_2 (Some "p2p" = Some "p2p") eq_refl).
  cbn [negb].
  erewrite (bind_normal (sendToMasterAsync "p2p.utils.isAppReady" []))
    by (by apply sendToMasterAsync_answers).
  unfold mbind at 1, M_bind at 1, lift at 1. rewrite Hd.
  unfold mbind at 1, M_bind at 1, lift at 1. rewrite Hv, Hready.
  simpl. unfold mbind, M_bind, perform, return_. by tidy.
Qed.

(** When the [try] raises, the run of [handleEmit] ends by logging and
    terminating. *)
Lemma handleEmit_catches event ip w e w2 :
  passes_preliminaries event ip w ->
  authorize event ip (after w [SendToMaster (getRateLimitStatus_request ip event)])
  = (Thrown e, w2) ->
  handleEmit event ip w
  = (Normal (),
     after w2 (log_effects (message_of e) "error" ++ [SocketTerminate])).
Proof.
  intros Hpre Hraise. rewrite (handleEmit_past_preliminaries _ _ _ Hpre).
  pose proof (shaped_authorize event ip
    (after w [SendToMaster (getRateLimitStatus_request ip event)])) as (q & _ & Hshape).
  rewrite Hraise in Hshape. simpl in Hshape. destruct Hshape as [He _].
  unfold async. erewrite bind_returned; [reflexivity|].
  unfold try_catch. rewrite Hraise. by apply authorize_failed_runs.
Qed.

Lemma handleEmit_never_raises_past_preliminaries event ip w :
  passes_preliminaries event ip w ->
  (handleEmit event ip w).1 = Normal ().
Proof.
  intros Hpre. rewrite (handleEmit_past_preliminaries _ _ _ Hpre).
  pose proof (guarded_shape event ip
    (after w [SendToMaster (getRateLimitStatus_request ip event)])) as (q & _ & Hshape).
  unfold async, mbind, M_bind.
  destruct (try_catch _ _ _) as [[[]| |e] w1]; simpl in *; done.
Qed.

Lemma authorize_isAppReady_rejected event ip w err :
  split_dot event !! 0%nat = Some "p2p" ->
  rejects isAppReady_request err ->
  authorize event ip w = (Thrown err, after w [SendToMaster isAppReady_request]).
Proof.
  intros Hprefix Hrej. unfold authorize. rewrite Hprefix.
  rewrite (bool_decide_eq_true_2 (Some "p2p" = Some "p2p") eq_refl).
  cbn [negb].
  erewrite bind_thrown; [reflexivity|]. by apply sendToMasterAsync_rejects.
Qed.

Lemma authorize_isAppReady_malformed event ip w reply e :
  split_dot event !! 0%nat = Some "p2p" ->
  answers isAppReady_request reply ->
  prop reply "data" ≫= (fun data => prop data "ready") = Thrown e ->
  authorize event ip w = (Thrown e, after w [SendToMaster isAppReady_request]).
Proof.
  intros Hprefix Hans Hshape. unfold authorize. rewrite Hprefix.
  rewrite (bool_decide_eq_true_2 (Some "p2p" = Some "p2p") eq_refl).
  cbn [negb].
  erewrite (bind_normal (sendToMasterAsync "p2p.utils.isAppReady" []))
    by (by apply sendToMasterAsync_answers).
  unfold mbind at 1, M_bind at 1, lift at 1.
  destruct (prop reply "data") as [data| |e'] eqn:Hdata; simpl in Hshape;
    [|done|by simplify_eq].
  unfold mbind at 1, M_bind at 1, lift at 1. by rewrite Hshape.
Qed.

Lemma authorize_isForgerAuthorized_rejected event ip w err :
  split_dot event !! 0%nat = Some "p2p" ->
  app_ready true ->
  split_dot event !! 1%nat = Some "internal" ->
  rejects (isForgerAuthorized_request ip) err ->
  authorize event ip w
  = (Thrown err,
     after w [SendToMaster isAppReady_request;
              SendToMaster (isForgerAuthorized_request ip)]).
Proof.
  intros Hprefix Hready Hversion Hrej.
  rewrite (authorize_when_ready _ _ _ Hprefix Hready). rewrite Hversion.
  rewrite (bool_decide_eq_true_2 (Some "internal" = Some "internal") eq_refl).
  etrans.
  { apply bind_thrown, bind_thrown. by apply sendToMasterAsync_rejects. }
  by tidy.
Qed.

(** The branch of a privileged peer handler, up to the answer about the
    caller. *)
Lemma authorize_peer_privileged ip handler schema w :
  privileged handler ->
  peer_schema handler schema ->
  authorize_peer ip (Some handler) w
  = (_ ← (res ← sendToMasterAsync "p2p.internal.isPeerOrForger" [ip_data ip];
          data ← lift (prop res "data");
          isPeerOrForger ← lift (prop data "isPeerOrForger");
          if negb (truthy isPeerOrForger) then
            _ ← perform SocketTerminate; return_
          else mret ());
     acceptNewPeer ip) w.
Proof.
  intros Hpriv (by_handler & Hpeer & Hschema). unfold authorize_peer.
  unfold mbind at 1, M_bind at 1, lift at 1. rewrite Hpeer.
  unfold mbind at 1, M_bind at 1, lift at 1. simpl key_of. rewrite Hschema.
  assert (bool_decide (Some handler = Some "postTransactions")
          || bool_decide (Some handler = Some "postBlock") = true) as ->.
  { destruct Hpriv as [-> | ->]; reflexivity. }
  reflexivity.
Qed.

Lemma authorize_isPeerOrForger_rejected event ip w handler schema err :
  split_dot event = ["p2p"; "peer"; handler] ->
  privileged handler ->
  peer_schema handler schema ->
  app_ready true ->
  rejects (isPeerOrForger_request ip) err ->
  authorize event ip w
  = (Thrown err,
     after w [SendToMaster isAppReady_request;
              SendToMaster (isPeerOrForger_request ip)]).
Proof.
  intros Hsplit Hpriv Hschema Hready Hrej.
  rewrite authorize_when_ready; [|by rewrite Hsplit|done].
  rewrite Hsplit. simpl lookup.
  rewrite (bool_decide_eq_false_2 (Some "peer" = Some "internal")) by done.
  rewrite (bool_decide_eq_true_2 (Some "peer" = Some "peer") eq_refl).
  etrans.
  { apply bind_thrown. rewrite (authorize_peer_privileged _ _ _ _ Hpriv Hschema).
    apply bind_thrown, bind_thrown. by apply sendToMasterAsync_rejects. }
  by tidy.
Qed.

Lemma attach_remoteAddress_runs ip headers headers' data' w :
  prop (req_data w) "headers" = Normal headers ->
  set_prop headers "remoteAddress" (VString ip) = Normal headers' ->
  set_prop (req_data w) "headers" headers' = Normal data' ->
  attach_remoteAddress ip w = (Normal (), with_data data' w).
Proof.
  intros Hh Hset Hdata. unfold attach_remoteAddress.
  unfold mbind, M_bind, get_data, lift, put_data. by rewrite Hh, Hset, Hdata.
Qed.

(** Headers that are an object or an array take the address. *)
Lemma attach_possible ip data headers :
  prop data "headers" = Normal headers ->
  is_nested headers ->
  exists headers' data',
    set_prop headers "remoteAddress" (VString ip) = Normal headers'
    /\ set_prop data "headers" headers' = Normal data'.
Proof.
  intros Hh Hnested.
  destruct headers; try done; destruct data; simpl in Hh; simplify_eq;
    simpl; eauto.
Qed.

(** Every run of [handleEmit] that completes ends in one of three ways. *)
Lemma handleEmit_completed event ip w w' :
  handleEmit event ip w = (Normal (), w') ->
  exists q last,
    quiet q /\ effects w' = effects w ++ q ++ [last]
    /\ (last = SocketTerminate \/ last = Next None \/ last = not_ready).
Proof.
  unfold handleEmit, async.
  destruct (Nat.ltb 128 (String.length event)).
  { simpl. intros [= <-]. exists [], SocketTerminate.
    split; [apply quiet_nil|]. split; [done|by left]. }
  set (asked := SendToMaster (getRateLimitStatus_request ip event)).
  destruct (sendToMasterAsync_cases "p2p.internal.getRateLimitStatus"
              [("data", VObject [("ip", VString ip); ("endpoint", VString event)])] w)
    as [(reply & _ & Hrun) | (err & _ & Hrun)].
  2: { erewrite bind_thrown by exact Hrun. done. }
  erewrite bind_normal by exact Hrun. fold (getRateLimitStatus_request ip event).
  fold asked.
  assert (Hq : quiet [asked]) by (by repeat constructor).
  unfold mbind at 1, M_bind at 1, lift at 1.
  pose proof (prop_safe reply "data") as Hs1.
  destruct (prop reply "data") as [d| |e]; [|done..].
  unfold mbind at 1, M_bind at 1, lift at 1.
  pose proof (prop_safe d "exceededLimitOnEndpoint") as Hs2.
  destruct (prop d "exceededLimitOnEndpoint") as [exceeded| |e]; [|done..].
  destruct (truthy exceeded).
  { simpl. intros [= <-]. exists [asked], SocketTerminate.
    split; [done|]. split; [by tidy|by left]. }
  unfold mbind at 1, M_bind at 1, get_data at 1.
  unfold mbind at 1, M_bind at 1, lift at 1.
  pose proof (lacks_basic_format_safe (req_data (after w [asked]))) as Hs3.
  destruct (lacks_basic_format _) as [[|]| |e]; [| |done..].
  { simpl. intros [= <-]. exists [asked], SocketTerminate.
    split; [done|]. split; [by tidy|by left]. }
  pose proof (guarded_shape event ip (after w [asked])) as (q & Hquiet & Hshape).
  unfold mbind, M_bind.
  destruct (try_catch (authorize event ip) authorize_failed (after w [asked]))
    as [[[]| |e] w1]; simpl in *; [| |done].
  - intros [= <-]. exists (asked :: q), (Next None).
    split; [by constructor|]. split; [|by right; left].
    simpl. rewrite Hshape. by rewrite <- !app_assoc.
  - intros [= <-]. destruct Hshape as (last & Hlast & ->).
    exists (asked :: q), last. split; [by constructor|].
    split; [by rewrite <- !app_assoc|]. destruct Hlast; auto.
Qed.

(** Every run of [handleHandshake] that completes ends in one of two
    ways. *)
Lemma handleHandshake_completed W server now ip w w' :
  handleHandshake W server now ip w = (Normal (), w') ->
  exists q last,
    quiet q /\ effects w' = effects w ++ q ++ [last]
    /\ (last = SocketDestroy \/ last = Next None).
Proof.
  unfold handleHandshake, async.
  destruct (penalized W now ip).
  { simpl. intros [= <-]. exists [], SocketDestroy.
    split; [apply quiet_nil|]. split; [done|by left]. }
  set (asked := SendToMaster (isBlockedByRateLimit_request ip)).
  destruct (sendToMasterAsync_cases "p2p.internal.isBlockedByRateLimit"
              [ip_data ip] w)
    as [(reply & _ & Hrun) | (err & _ & Hrun)].
  2: { erewrite bind_thrown by exact Hrun. done. }
  erewrite bind_normal by exact Hrun. fold (isBlockedByRateLimit_request ip).
  fold asked.
  assert (Hq : quiet [asked]) by (by repeat constructor).
  unfold mbind at 1, M_bind at 1, lift at 1.
  pose proof (prop_safe reply "data") as Hs1.
  destruct (prop reply "data") as [d| |e]; [|done..].
  unfold mbind at 1, M_bind at 1, lift at 1.
  pose proof (prop_safe d "blocked") as Hs2.
  destruct (prop d "blocked") as [blocked| |e]; [|done..].
  destruct (truthy blocked || _).
  { simpl. intros [= <-]. exists [asked], SocketDestroy.
    split; [done|]. split; [by tidy|by left]. }
  destruct (Z.ltb _ _); simpl; intros [= <-].
  - exists [asked], SocketDestroy. split; [done|]. split; [by tidy|by left].
  - exists [asked], (Next None). split; [done|]. split; [by tidy|by right].
Qed.

(** C1, as the code has it. Once a call is past the checks that come
    before the [try] of [handleEmit], no failure gets out of the middleware:
    its promise is fulfilled. Whatever the guarded part raises is logged
    through [this.log] at level error and the socket is terminated, [next]
    is not called. That is what happens when the coordinator rejects the
    round trip about readiness, about the forger or about the peer, and
    when the reply about readiness has no [data] to read [ready] from. *)
Theorem guarded_round_trip_failures_terminate (event ip : string) (w : world) :
  passes_preliminaries event ip w ->
  let asked := SendToMaster (getRateLimitStatus_request ip event) in
  let ready := SendToMaster isAppReady_request in
  let caught (e : value) : list effect :=
    log_effects (message_of e) "error" ++ [SocketTerminate] in
  (handleEmit event ip w).1 = Normal ()
  /\ (forall e w2,
        authorize event ip (after w [asked]) = (Thrown e, w2) ->
        handleEmit event ip w = (Normal (), after w2 (caught e)))
  /\ (forall err,
        split_dot event !! 0%nat = Some "p2p" ->
        rejects isAppReady_request err ->
        handleEmit event ip w
        = (Normal (), after w ([asked; ready] ++ caught err)))
  /\ (forall reply e,
        split_dot event !! 0%nat = Some "p2p" ->
        answers isAppReady_request reply ->
        prop reply "data" ≫= (fun data => prop data "ready") = Thrown e ->
        handleEmit event ip w
        = (Normal (), after w ([asked; ready] ++ caught e)))
  /\ (forall err,
        split_dot event !! 0%nat = Some "p2p" ->
        app_ready true ->
        split_dot event !! 1%nat = Some "internal" ->
        rejects (isForgerAuthorized_request ip) err ->
        handleEmit event ip w
        = (Normal (),
           after w ([asked; ready; SendToMaster (isForgerAuthorized_request ip)]
                    ++ caught err)))
  /\ (forall err handler schema,
        split_dot event = ["p2p"; "peer"; handler] ->
        privileged handler ->
        peer_schema handler schema ->
        app_ready true ->
        rejects (isPeerOrForger_request ip) err ->
        handleEmit event ip w
        = (Normal (),
           after w ([asked; ready; SendToMaster (isPeerOrForger_request ip)]
                    ++ caught err))).
Proof.
  intros Hpre asked ready caught.
  split; [by apply handleEmit_never_raises_past_preliminaries|].
  split; [intros e w2; by apply handleEmit_catches|].
  repeat split.
  - intros err Hprefix Hrej.
    rewrite (handleEmit_catches event ip w err _ Hpre
               (authorize_isAppReady_rejected _ _ _ _ Hprefix Hrej)).
    by tidy.
  - intros reply e Hprefix Hans Hshape.
    rewrite (handleEmit_catches event ip w e _ Hpre
               (authorize_isAppReady_malformed _ _ _ _ _ Hprefix Hans Hshape)).
    by tidy.
  - intros err Hprefix Hready Hversion Hrej.
    rewrite (handleEmit_catches event ip w err _ Hpre
               (authorize_isForgerAuthorized_rejected _ _ _ _
                  Hprefix Hready Hversion Hrej)).
    by tidy.
  - intros err handler schema Hsplit Hpriv Hschema Hready Hrej.
    rewrite (handleEmit_catches event ip w err _ Hpre
               (authorize_isPeerOrForger_rejected _ _ _ _ _ _
                  Hsplit Hpriv Hschema Hready Hrej)).
    by tidy.
Qed.

(** C7, as the code has it. A call past the length, rate-limit, format and
    namespace checks for which the coordinator reports the application not
    ready gets the error "App is not ready." through [next] and its socket
    is not terminated. Among the runs of the two middlewares that complete
    without raising, it is the only failure that leaves the connection
    open: such a run of [handleEmit] ends by terminating the socket, by
    [next()] or by that error, and such a run of [handleHandshake] ends by
    destroying the socket or by [next()]. *)
Theorem not_ready_is_the_open_failure (event ip : string) (w : world) :
  (passes_preliminaries event ip w ->
   split_dot event !! 0%nat = Some "p2p" ->
   app_ready false ->
   handleEmit event ip w
   = (Normal (),
      after w [SendToMaster (getRateLimitStatus_request ip event);
               SendToMaster isAppReady_request;
               Next (Some (Error "App is not ready."))]))
  /\ (forall w',
        handleEmit event ip w = (Normal (), w') ->
        exists q last,
          quiet q /\ effects w' = effects w ++ q ++ [last]
          /\ (last = SocketTerminate \/ last = Next None
              \/ last = Next (Some (Error "App is not ready."))))
  /\ (forall W server now w',
        handleHandshake W server now ip w = (Normal (), w') ->
        exists q last,
          quiet q /\ effects w' = effects w ++ q ++ [last]
          /\ (last = SocketDestroy \/ last = Next None)).
Proof.
  split; [|split].
  - intros Hpre Hprefix Hready.
    rewrite (handleEmit_past_preliminaries _ _ _ Hpre). unfold async.
    erewrite bind_returned
      by (unfold try_catch;
          by rewrite (authorize_when_not_ready _ _ _ Hprefix Hready)).
    by tidy.
  - apply handleEmit_completed.
  - intros W server now w'. apply handleHandshake_completed.
Qed.

(** The run of a call of a peer handler once the branch on the handler has
    let it through after the effects [sent]. *)
Lemma handleEmit_peer_accepted event ip w handler sent headers :
  passes_preliminaries event ip w ->
  split_dot event = ["p2p"; "peer"; handler] ->
  app_ready true ->
  (forall w1, authorize_peer ip (Some handler) w1
              = (_ ← lift (Normal ()); acceptNewPeer ip) (after w1 sent)) ->
  prop (req_data w) "headers" = Normal headers ->
  is_nested headers ->
  exists headers' data',
    set_prop headers "remoteAddress" (VString ip) = Normal headers'
    /\ set_prop (req_data w) "headers" headers' = Normal data'
    /\ handleEmit event ip w
       = (Normal (),
          with_data data'
            (after w ([SendToMaster (getRateLimitStatus_request ip event);
                       SendToMaster isAppReady_request]
                      ++ sent ++ acceptNewPeer_effects ip headers
                      ++ [Next None]))).
Proof.
  intros Hpre Hsplit Hready Hbranch Hheaders Hnested.
  destruct (attach_possible ip _ _ Hheaders Hnested)
    as (headers' & data' & Hset & Hdata).
  exists headers', data'. split; [done|]. split; [done|].
  rewrite (handleEmit_past_preliminaries _ _ _ Hpre). unfold async.
  erewrite bind_normal.
  2: { unfold try_catch.
       rewrite authorize_when_ready; [|by rewrite Hsplit|done].
       rewrite Hsplit. simpl lookup.
       rewrite (bool_decide_eq_false_2 (Some "peer" = Some "internal")) by done.
       rewrite (bool_decide_eq_true_2 (Some "peer" = Some "peer") eq_refl).
       erewrite bind_normal.
       2: { rewrite Hbranch. unfold mbind, M_bind, lift.
            apply acceptNewPeer_runs. exact Hheaders. }
       erewrite attach_remoteAddress_runs;
         [reflexivity|exact Hheaders|exact Hset|exact Hdata]. }
  unfold perform. by tidy.
Qed.

(** The same run when the headers of the call are null: the check on the
    basic format lets null through, the notification is sent, and the
    assignment of the address raises into the [catch]. *)
Lemma handleEmit_peer_null_headers event ip w handler sent :
  passes_preliminaries event ip w ->
  split_dot event = ["p2p"; "peer"; handler] ->
  app_ready true ->
  (forall w1, authorize_peer ip (Some handler) w1
              = (_ ← lift (Normal ()); acceptNewPeer ip) (after w1 sent)) ->
  prop (req_data w) "headers" = Normal VNull ->
  handleEmit event ip w
  = (Normal (),
     after w ([SendToMaster (getRateLimitStatus_request ip event);
               SendToMaster isAppReady_request]
              ++ sent ++ acceptNewPeer_effects ip VNull
              ++ log_effects
                   (VString "Cannot set properties of null (setting 'remoteAddress')")
                   "error"
              ++ [SocketTerminate])).
Proof.
  intros Hpre Hsplit Hready Hbranch Hheaders.
  erewrite handleEmit_catches; [|exact Hpre|].
  2: { rewrite authorize_when_ready; [|by rewrite Hsplit|done].
       rewrite Hsplit. simpl lookup.
       rewrite (bool_decide_eq_false_2 (Some "peer" = Some "internal")) by done.
       rewrite (bool_decide_eq_true_2 (Some "peer" = Some "peer") eq_refl).
       erewrite bind_normal.
       2: { rewrite Hbranch. unfold mbind, M_bind, lift.
            apply acceptNewPeer_runs. exact Hheaders. }
       unfold attach_remoteAddress, mbind, M_bind, get_data, lift.
       simpl req_data. rewrite Hheaders. simpl. reflexivity. }
  by tidy.
Qed.

Lemma handleEmit_privileged_refused event ip w handler schema recognized :
  passes_preliminaries event ip w ->
  split_dot event = ["p2p"; "peer"; handler] ->
  privileged handler ->
  peer_schema handler schema ->
  app_ready true ->
  answers_field (isPeerOrForger_request ip) "isPeerOrForger" recognized ->
  truthy recognized = false ->
  handleEmit event ip w
  = (Normal (),
     after w [SendToMaster (getRateLimitStatus_request ip event);
              SendToMaster isAppReady_request;
              SendToMaster (isPeerOrForger_request ip);
              SocketTerminate]).
Proof.
  intros Hpre Hsplit Hpriv Hschema Hready Hfield Hfalsy.
  rewrite (handleEmit_past_preliminaries _ _ _ Hpre). unfold async.
  erewrite bind_returned.
  2: { unfold try_catch.
       rewrite authorize_when_ready; [|by rewrite Hsplit|done].
       rewrite Hsplit. simpl lookup.
       rewrite (bool_decide_eq_false_2 (Some "peer" = Some "internal")) by done.
       rewrite (bool_decide_eq_true_2 (Some "peer" = Some "peer") eq_refl).
       erewrite bind_returned; [reflexivity|].
       rewrite (authorize_peer_privileged _ _ _ _ Hpriv Hschema).
       apply bind_returned.
       destruct Hfield as (reply & d & Hans & Hd & Hv).
       erewrite bind_normal by (by apply sendToMasterAsync_answers).
       unfold mbind, M_bind, lift, perform, return_.
       rewrite Hd, Hv, Hfalsy. reflexivity. }
  by tidy.
Qed.

Lemma authorize_peer_recognized ip handler schema recognized :
  privileged handler ->
  peer_schema handler schema ->
  answers_field (isPeerOrForger_request ip) "isPeerOrForger" recognized ->
  truthy recognized = true ->
  forall w1,
    authorize_peer ip (Some handler) w1
    = (_ ← lift (Normal ()); acceptNewPeer ip)
        (after w1 [SendToMaster (isPeerOrForger_request ip)]).
Proof.
  intros Hpriv Hschema (reply & d & Hans & Hd & Hv) Htruthy w1.
  rewrite (authorize_peer_privileged _ _ _ _ Hpriv Hschema).
  unfold mbind at 1, M_bind at 1.
  erewrite bind_normal by (by apply sendToMasterAsync_answers).
  unfold mbind at 1, M_bind at 1, lift at 1. rewrite Hd.
  unfold mbind at 1, M_bind at 1, lift at 1. rewrite Hv, Htruthy.
  reflexivity.
Qed.




End Authorization.

(** ** Calls of peer handlers and the validator *)

Section PeerCalls.
Context `{E : Externals}.

(** C8. For a call of [p2p.peer.postBlock] or [p2p.peer.postTransactions]
    that is past the earlier steps (preliminaries, application ready, a
    schema table with an entry for peer), the middleware asks the
    coordinator [p2p.internal.isPeerOrForger] about the address of the
    caller. When the answer is no, the socket is terminated and nothing
    more happens. When it is yes and the headers of the call are an object
    or an array, the accepted-peer notification is sent, the address is
    attached to the headers and [next()] is called. When it is yes and the
    headers are null, the notification is sent all the same, the assignment
    of the address raises, the error is logged and the socket is
    terminated. The payload is never validated here: the result is the same
    with any function in place of [ajv.validate]. *)
Theorem privileged_calls_hinge_on_recognition (event ip handler : string)
  (w : world) (schema recognized : value) (E' : Externals) :
  E' = E \/ (exists validate, E' = with_validator E validate) ->
  passes_preliminaries event ip w ->
  split_dot event = ["p2p"; "peer"; handler] ->
  handler = "postBlock" \/ handler = "postTransactions" ->
  peer_schema handler schema ->
  app_ready true ->
  answers_field (isPeerOrForger_request ip) "isPeerOrForger" recognized ->
  let sent := [SendToMaster (getRateLimitStatus_request ip event);
               SendToMaster isAppReady_request;
               SendToMaster (isPeerOrForger_request ip)] in
  (truthy recognized = false ->
   @handleEmit E' event ip w = (Normal (), after w (sent ++ [SocketTerminate])))
  /\ (truthy recognized = true ->
      forall headers,
        prop (req_data w) "headers" = Normal headers ->
        is_nested headers ->
        exists headers' data',
          set_prop headers "remoteAddress" (VString ip) = Normal headers'
          /\ set_prop (req_data w) "headers" headers' = Normal data'
          /\ @handleEmit E' event ip w
             = (Normal (),
                with_data data'
                  (after w (sent ++ acceptNewPeer_effects ip headers
                            ++ [Next None]))))
  /\ (truthy recognized = true ->
      prop (req_data w) "headers" = Normal VNull ->
      @handleEmit E' event ip w
      = (Normal (),
         after w (sent ++ acceptNewPeer_effects ip VNull
                  ++ log_effects
                       (VString
                          "Cannot set properties of null (setting 'remoteAddress')")
                       "error"
                  ++ [SocketTerminate]))).
Proof.
  intros HE' Hpre Hsplit Hpriv Hschema Hready Hfield sent.
  destruct HE' as [-> | [validate ->]]; (split; [|split]).
  - intros Hfalsy. by eapply handleEmit_privileged_refused.
  - intros Htruthy headers Hheaders Hnested.
    exact (handleEmit_peer_accepted event ip w handler
             [SendToMaster (isPeerOrForger_request ip)] headers
             Hpre Hsplit Hready
             (authorize_peer_recognized ip handler schema recognized
                Hpriv Hschema Hfield Htruthy)
             Hheaders Hnested).
  - intros Htruthy Hheaders.
    exact (handleEmit_peer_null_headers event ip w handler
             [SendToMaster (isPeerOrForger_request ip)]
             Hpre Hsplit Hready
             (authorize_peer_recognized ip handler schema recognized
                Hpriv Hschema Hfield Htruthy)
             Hheaders).
  - intros Hfalsy.
    exact (@handleEmit_privileged_refused (with_validator E validate)
             event ip w handler schema recognized
             Hpre Hsplit Hpriv Hschema Hready Hfield Hfalsy).
  - intros Htruthy headers Hheaders Hnested.
    exact (@handleEmit_peer_accepted (with_validator E validate)
             event ip w handler
             [SendToMaster (isPeerOrForger_request ip)] headers
             Hpre Hsplit Hready
             (@authorize_peer_recognized (with_validator E validate)
                ip handler schema recognized Hpriv Hschema Hfield Htruthy)
             Hheaders Hnested).
  - intros Htruthy Hheaders.
    exact (@handleEmit_peer_null_headers (with_validator E validate)
             event ip w handler
             [SendToMaster (isPeerOrForger_request ip)]
             Hpre Hsplit Hready
             (@authorize_peer_recognized (with_validator E validate)
                ip handler schema recognized Hpriv Hschema Hfield Htruthy)
             Hheaders).
Qed.


End PeerCalls.

(** ** Raw frames *)

Section Frames.
Context `{Externals}.

Lemma some_key_outside_false allowed keys :
  some_key_outside allowed keys = false
  <-> Forall (fun key => includes allowed key = true) keys.
Proof.
  unfold some_key_outside. rewrite negb_false_iff, Nat.eqb_eq.
  induction keys as [|key keys IH]; simpl.
  - split; [constructor|done].
  - destruct (includes allowed key) eqn:Hkey; simpl.
    + rewrite IH. split; [by constructor|by inversion 1].
    + split; [done|]. inversion 1; congruence.
Qed.

Lemma assoc_key k fields v : assoc k fields = Some v -> In k fields.*1.
Proof.
  induction fields as [|[k' v'] fields IH]; simpl; [done|].
  destruct (String.eqb_spec k' k); [by left|]. intros Hk. right. by apply IH.
Qed.

(** What the frame listener does once the verdict on the envelope is
    known. *)
Lemma on_frame_verdict now ip parsed event st :
  prop parsed "event" = Normal event ->
  is_string event "#disconnect" = false ->
  is_string event "#handshake" = false ->
  on_frame now ip parsed st
  = match violates_envelope st.1 parsed event with
    | Normal false => st
    | _ => setErrorForIpAndTerminate now ip st
    end.
Proof.
  intros Hevent Hd Hh. unfold on_frame, on_parsed.
  rewrite Hevent. simpl. rewrite Hd, Hh.
  by destruct (violates_envelope st.1 parsed event) as [[|]| |e].
Qed.

(** A frame that passes has headers that pass. *)
Lemma passing_frame_has_passing_headers W parsed event data headers :
  violates_envelope W parsed event = Normal false ->
  prop parsed "data" = Normal data ->
  prop data "headers" = Normal headers ->
  truthy headers = true ->
  headers_malformed headers = Normal false.
Proof.
  intros Hpass Hdata Hheaders Htruthy.
  unfold violates_envelope in Hpass. rewrite Hdata in Hpass. simpl in Hpass.
  destruct (negb (String.eqb (typeof event) "string")); [done|].
  destruct (negb (String.eqb (typeof data) "object")); [done|].
  destruct (hasAdditionalProperties parsed) as [[|]| |e] eqn:Hextra; try done.
  clear Hpass. unfold hasAdditionalProperties in Hextra.
  rewrite Hdata in Hextra. simpl in Hextra.
  rewrite Hheaders in Hextra. simpl in Hextra. rewrite Htruthy in Hextra.
  unfold mbind, outcome_bind in Hextra.
  repeat (case_match; simpl in *; simplify_eq); done.
Qed.

Lemma headers_pass_spec headers :
  truthy headers = true ->
  headers_malformed headers = Normal false ->
  (forall keys, Object_keys headers = Normal keys ->
                Forall (fun key => In key header_names) keys)
  /\ (forall k v, In k header_names -> prop headers k = Normal v ->
                  truthy v = true -> typeof v = header_type k).
Proof.
  intros Htruthy Hpass. unfold headers_malformed in Hpass.
  destruct (Object_keys headers) as [keys| |e] eqn:Hkeys; try done.
  simpl in Hpass.
  destruct (some_key_outside _ keys) eqn:Hout; [done|].
  apply some_key_outside_false in Hout.
  destruct (prop headers "version") as [version| |?] eqn:Hversion; try done.
  destruct (prop headers "port") as [port| |?] eqn:Hport; try done.
  destruct (prop headers "Content-Type") as [content_type| |?] eqn:Hcontent; try done.
  destruct (prop headers "height") as [height| |?] eqn:Hheight; try done.
  simpl in Hpass. injection Hpass as Hpass.
  apply orb_false_iff in Hpass as [Hpass Hh].
  apply orb_false_iff in Hpass as [Hpass Hc].
  apply orb_false_iff in Hpass as [Hv Hp].
  split.
  - intros keys' [= <-]. eapply Forall_impl; [exact Hout|].
    intros key Hkey. unfold includes in Hkey. unfold header_names.
    apply existsb_exists in Hkey as (name & Hin & Heq).
    apply String.eqb_eq in Heq. by subst.
  - intros k v Hin Hk Hvt. unfold present_with_other_type in *.
    simpl in Hin.
    destruct Hin as [<- | [<- | [<- | [<- | []]]]].
    + assert (v = version) as -> by congruence. rewrite Hvt in Hv.
      by apply negb_false_iff, String.eqb_eq in Hv.
    + assert (v = port) as -> by congruence. rewrite Hvt in Hp.
      by apply negb_false_iff, String.eqb_eq in Hp.
    + assert (v = height) as -> by congruence. rewrite Hvt in Hh.
      by apply negb_false_iff, String.eqb_eq in Hh.
    + assert (v = content_type) as -> by congruence. rewrite Hvt in Hc.
      by apply negb_false_iff, String.eqb_eq in Hc.
Qed.

(** An own property of the headers that holds an object or an array fails
    the headers. *)
Lemma nested_header_is_malformed hs k v :
  assoc k hs = Some v ->
  is_nested v ->
  headers_malformed (VObject hs) = Normal true.
Proof.
  intros Hk Hnested. unfold headers_malformed. simpl.
  destruct (some_key_outside _ _) eqn:Hout; [done|].
  apply some_key_outside_false in Hout.
  rewrite Forall_forall in Hout. specialize (Hout k).
  assert (Hin : includes ["version"; "port"; "height"; "Content-Type"] k = true).
  { apply Hout. apply list_elem_of_In. by eapply assoc_key. }
  simpl in Hin. f_equal.
  assert (Hv : truthy v = true /\ typeof v = "object") by (by destruct v).
  destruct Hv as [Htruthy Htype].
  unfold present_with_other_type.
  repeat match type of Hin with
  | (String.eqb ?a ?b || _) = true =>
      destruct (String.eqb_spec a b) as [<-|_]; simpl in Hin
  end; try done.
  all: rewrite Hk; simpl; rewrite Htruthy, Htype; simpl;
       rewrite ?orb_true_r; reflexivity.
Qed.

Lemma three_segments_is_no_control_event event :
  length (split_dot event) = 3%nat ->
  is_string (VString event) "#handshake" = false
  /\ is_string (VString event) "#disconnect" = false.
Proof.
  intros Hlen. simpl.
  split; apply String.eqb_neq; intros ->; simpl in Hlen; lia.
Qed.

(** The frame of a registered call whose data holds these headers and
    nothing else passes. *)
Lemma call_with_headers_passes W event cid hs :
  length (split_dot event) = 3%nat ->
  includes (handlers W) event = true ->
  headers_malformed (VObject hs) = Normal false ->
  violates_envelope W (call_frame event [("headers", VObject hs)] cid)
    (VString event)
  = Normal false.
Proof.
  intros Hlen Hreg Hheaders.
  destruct (three_segments_is_no_control_event event Hlen) as [Hh Hd].
  unfold violates_envelope, call_frame, hasAdditionalProperties. simpl.
  simpl in Hh, Hd. rewrite Hh, Hd, Hlen. simpl.
  rewrite Hheaders. simpl. rewrite andb_false_r. by rewrite Hreg.
Qed.

(** C3, as the code has it. Take the frame of a call whose [data.headers]
    is present and not falsy. If the frame passes the envelope check, every
    key of the headers is one of version, port, height, Content-Type, and
    each of these that holds a value that is not falsy holds one of its
    type: a string for version and Content-Type, a number for port and
    height. A header that holds an object or an array makes the frame a
    violation: it is recorded for the address and the socket is
    terminated. A registered call with the headers version "2.0.0" and
    port 4002 passes and changes nothing. *)
Theorem headers_are_checked_when_truthy (W : Worker) :
  (forall parsed event data headers,
     prop parsed "data" = Normal data ->
     prop data "headers" = Normal headers ->
     truthy headers = true ->
     violates_envelope W parsed event = Normal false ->
     (forall keys, Object_keys headers = Normal keys ->
                   Forall (fun key => In key header_names) keys)
     /\ (forall k v, In k header_names -> prop headers k = Normal v ->
                     truthy v = true -> typeof v = header_type k))
  /\ (forall parsed event data hs k v now ip ws,
        prop parsed "event" = Normal event ->
        is_string event "#disconnect" = false ->
        is_string event "#handshake" = false ->
        prop parsed "data" = Normal data ->
        prop data "headers" = Normal (VObject hs) ->
        assoc k hs = Some v ->
        is_nested v ->
        on_frame now ip parsed (W, ws)
        = setErrorForIpAndTerminate now ip (W, ws))
  /\ (forall event cid now ip ws,
        length (split_dot event) = 3%nat ->
        includes (handlers W) event = true ->
        on_frame now ip
          (call_frame event
             [("headers",
               VObject [("version", VString "2.0.0"); ("port", VNumber 4002)])]
             cid)
          (W, ws)
        = (W, ws)).
Proof.
  split; [|split].
  - intros parsed event data headers Hdata Hheaders Htruthy Hpass.
    apply headers_pass_spec; [done|].
    by eapply passing_frame_has_passing_headers.
  - intros parsed event data hs k v now ip ws Hevent Hd Hh Hdata Hheaders Hk Hnested.
    rewrite (on_frame_verdict now ip parsed event _ Hevent Hd Hh). simpl.
    destruct (violates_envelope W parsed event) as [[|]| |e] eqn:Hverdict; try done.
    pose proof (passing_frame_has_passing_headers W parsed event data
                  (VObject hs) Hverdict Hdata Hheaders eq_refl) as Hpass.
    by rewrite (nested_header_is_malformed hs k v Hk Hnested) in Hpass.
  - intros event cid now ip ws Hlen Hreg.
    destruct (three_segments_is_no_control_event event Hlen) as [Hh Hd].
    erewrite (on_frame_verdict now ip _ (VString event)); [|reflexivity|done..].
    simpl fst. rewrite call_with_headers_passes; done.
Qed.

(** C2, where the code departs from it. The frame of a registered call
    whose [cid] is the string "abc" passes: no violation is recorded and
    the socket is not terminated. *)
Theorem cid_of_another_type_passes (violations : gmap string Z) (now : Z)
  (ip : string) (ws : WebSocket) :
  on_frame now ip (call_frame "p2p.peer.getPeers" [] (VString "abc"))
    (Demo.worker violations, ws)
  = (Demo.worker violations, ws).
Proof. reflexivity. Qed.

Lemma assoc_assign_other k k' v fields :
  k <> k' -> assoc k (assign k' v fields) = assoc k fields.
Proof.
  intros Hne. induction fields as [|[k0 v0] fields IH]; simpl.
  - destruct (String.eqb_spec k' k); congruence.
  - destruct (String.eqb_spec k0 k') as [->|Hk0]; simpl.
    + destruct (String.eqb_spec k' k); congruence.
    + destruct (String.eqb_spec k0 k); [done|apply IH].
Qed.

Lemma some_key_outside_assign allowed k v fields :
  includes allowed k = true ->
  some_key_outside allowed (assign k v fields).*1
  = some_key_outside allowed fields.*1.
Proof.
  intros Hk. unfold some_key_outside. do 2 f_equal.
  induction fields as [|[k0 v0] fields IH]; simpl.
  - by rewrite Hk.
  - destruct (String.eqb_spec k0 k) as [->|Hk0]; simpl.
    + by rewrite Hk.
    + destruct (includes allowed k0); simpl; [exact IH|f_equal; exact IH].
Qed.

Lemma hasAdditionalProperties_ignores_cid c fields :
  hasAdditionalProperties (VObject (assign "cid" c fields))
  = hasAdditionalProperties (VObject fields).
Proof.
  unfold hasAdditionalProperties. simpl.
  rewrite some_key_outside_assign by reflexivity.
  by rewrite !assoc_assign_other.
Qed.

(** The listener does the same whatever the frame holds for [cid]: the
    condition that reads it also asks for the event to be the disconnect
    announcement, which an earlier branch has taken. *)
Lemma on_parsed_ignores_cid now ip c fields st :
  on_parsed now ip (VObject (assign "cid" c fields)) st
  = on_parsed now ip (VObject fields) st.
Proof.
  unfold on_parsed. simpl. rewrite assoc_assign_other by done.
  destruct (is_string _ "#disconnect") eqn:Hd; [done|].
  destruct (is_string _ "#handshake") eqn:Hh; [done|].
  unfold violates_envelope.
  rewrite hasAdditionalProperties_ignores_cid. simpl.
  rewrite assoc_assign_other by done. rewrite Hd.
  destruct (negb _); [done|]. destruct (negb _); [done|].
  destruct (hasAdditionalProperties _) as [[|]| |e]; simpl; try done.
  by rewrite !andb_false_r.
Qed.

(** Once [_disconnected] is set, every frame is a violation. *)
Lemma message_after_disconnect now ip message st :
  _disconnected st.2 = true ->
  handlePayload_message now ip message st = setErrorForIpAndTerminate now ip st.
Proof. intros Hd. unfold handlePayload_message. by rewrite Hd. Qed.

Lemma messages_keep_disconnected ip frames st :
  _disconnected st.2 = true ->
  _disconnected (handlePayload_messages ip frames st).2 = true.
Proof.
  revert st. induction frames as [|[now message] frames IH]; intros st Hd; [done|].
  simpl. apply IH. by rewrite message_after_disconnect.
Qed.

Lemma disconnect_frame_sets_flag now ip message parsed st :
  message <> "#2" ->
  (10 <= String.length message)%nat ->
  JSON_parse message = Some parsed ->
  prop parsed "event" = Normal (VString "#disconnect") ->
  _disconnected (handlePayload_message now ip message st).2 = true.
Proof.
  intros Hping Hlen Hparse Hevent. unfold handlePayload_message.
  destruct (_disconnected st.2) eqn:Hd; [done|].
  apply String.eqb_neq in Hping. rewrite Hping.
  assert (Nat.ltb (String.length message) 10 = false) as ->
    by (apply Nat.ltb_ge; lia).
  rewrite Hparse. unfold on_frame, on_parsed. by rewrite Hevent.
Qed.

(** C9. After a frame that announces a disconnect, every later frame of
    the connection, whatever it holds, records a violation for the address
    at the time it arrives and terminates the socket; during the 60 seconds
    that follow, an attempt to connect from that address has its raw socket
    destroyed at the first check of the admission middleware. *)
Theorem frames_after_disconnect_are_violations (W : Worker) (ws : WebSocket)
  (now : Z) (ip message : string) (parsed : value)
  (frames : list (Z * string)) (t : Z) (m : string) :
  message <> "#2" ->
  (10 <= String.length message)%nat ->
  JSON_parse message = Some parsed ->
  prop parsed "event" = Normal (VString "#disconnect") ->
  let st1 :=
    handlePayload_messages ip frames (handlePayload_message now ip message (W, ws)) in
  let st2 := handlePayload_message t ip m st1 in
  st2 = setErrorForIpAndTerminate t ip st1
  /\ ipLastError st2.1 !! ip = Some t
  /\ terminated st2.2 = true
  /\ (forall server t' w,
        t <> 0 -> t' - t < 60 * 1000 ->
        handleHandshake st2.1 server t' ip w = (Normal (), after w [SocketDestroy])).
Proof.
  intros Hping Hlen Hparse Hevent st1 st2.
  assert (Hflag : _disconnected st1.2 = true).
  { apply messages_keep_disconnected. by eapply disconnect_frame_sets_flag. }
  assert (Hst2 : st2 = setErrorForIpAndTerminate t ip st1)
    by (by apply message_after_disconnect).
  assert (Hrecord : ipLastError st2.1 !! ip = Some t).
  { rewrite Hst2. simpl. apply lookup_insert_eq. }
  repeat split; [done|done|by rewrite Hst2|].
  intros server t' w Hclock Hage. apply handleHandshake_penalized.
  apply penalized_spec. exists t. repeat split; [done|done|].
  unfold MINUTE_IN_MILLISECONDS. lia.
Qed.

End Frames.

(** ** Concrete runs *)

(** Solves a statement about a concrete setting by choosing the replies the
    coordinator gives and evaluating. *)
Ltac concrete :=
  repeat first
    [ reflexivity
    | progress (vm_compute; lia)
    | eexists
    | split ].

(** C1, a run that departs from it: the coordinator rejects the round trip
    about the rate limit. The promise of [handleHandshake] is rejected with
    the error of the coordinator; the socket is not destroyed and nothing is
    logged. The same holds for the round trip about the rate-limit status
    in [handleEmit]. *)
Lemma unguarded_round_trip_failure_escapes :
  @handleHandshake (Demo.failing "p2p.internal.isBlockedByRateLimit")
    (Demo.worker ∅) Demo.server 100000 "10.0.0.3" (Demo.empty_world VUndefined)
  = (Thrown (Error "coordinator unavailable"),
     after (Demo.empty_world VUndefined)
       [SendToMaster (isBlockedByRateLimit_request "10.0.0.3")])
  /\ @handleEmit (Demo.failing "p2p.internal.getRateLimitStatus")
       "p2p.peer.getPeers" "10.0.0.3" Demo.call_world
     = (Thrown (Error "coordinator unavailable"),
        after Demo.call_world
          [SendToMaster (getRateLimitStatus_request "10.0.0.3" "p2p.peer.getPeers")]).
Proof. split; reflexivity. Qed.

Lemma guarded_round_trip_failures_terminate_witness :
  @passes_preliminaries (Demo.failing "p2p.internal.isPeerOrForger")
    "p2p.peer.postBlock" "10.0.0.3" Demo.call_world
  /\ @handleEmit (Demo.failing "p2p.internal.isPeerOrForger")
       "p2p.peer.postBlock" "10.0.0.3" Demo.call_world
     = (Normal (),
        after Demo.call_world
          ([SendToMaster (getRateLimitStatus_request "10.0.0.3" "p2p.peer.postBlock");
            SendToMaster isAppReady_request;
            SendToMaster (isPeerOrForger_request "10.0.0.3")]
           ++ @log_effects (Demo.failing "p2p.internal.isPeerOrForger")
                (VString "coordinator unavailable") "error"
           ++ [SocketTerminate])).
Proof.
  assert (Hpre : @passes_preliminaries (Demo.failing "p2p.internal.isPeerOrForger")
                   "p2p.peer.postBlock" "10.0.0.3" Demo.call_world)
    by concrete.
  split; [exact Hpre|].
  refine (proj2 (proj2 (proj2 (proj2 (proj2
    (@guarded_round_trip_failures_terminate
       (Demo.failing "p2p.internal.isPeerOrForger")
       "p2p.peer.postBlock" "10.0.0.3" Demo.call_world Hpre)))))
    (Error "coordinator unavailable") "postBlock"
    (VObject [("type", VString "object")]) _ _ _ _ _); concrete.
  by left.
Defined.

(** C3, a frame that departs from it: the header version holds the number
    0, which is not a string, and the frame passes. *)
Lemma falsy_header_of_another_type_passes :
  typeof (VNumber 0) <> header_type "version"
  /\ @violates_envelope (Demo.externals []) (Demo.worker ∅)
       (call_frame "p2p.peer.getPeers"
          [("headers", VObject [("version", VNumber 0)])] (VNumber 1))
       (VString "p2p.peer.getPeers")
     = Normal false
  /\ @on_frame (Demo.externals []) 100000 "10.0.0.3"
       (call_frame "p2p.peer.getPeers"
          [("headers", VObject [("version", VNumber 0)])] (VNumber 1))
       (Demo.worker ∅, fresh_ws)
     = (Demo.worker ∅, fresh_ws).
Proof. split; [done|]. split; reflexivity. Qed.

Lemma headers_are_checked_when_truthy_witness :
  @on_frame (Demo.externals []) 100000 "10.0.0.3"
    (call_frame "p2p.peer.getPeers"
       [("headers", VObject [("port", VObject [("nested", VNumber 1)])])]
       (VNumber 1))
    (Demo.worker ∅, fresh_ws)
  = setErrorForIpAndTerminate 100000 "10.0.0.3" (Demo.worker ∅, fresh_ws)
  /\ @on_frame (Demo.externals []) 100000 "10.0.0.3"
       (call_frame "p2p.peer.getPeers"
          [("headers",
            VObject [("version", VString "2.0.0"); ("port", VNumber 4002)])]
          (VNumber 1))
       (Demo.worker ∅, fresh_ws)
     = (Demo.worker ∅, fresh_ws)
  /\ (forall k v,
        In k header_names ->
        prop (VObject [("version", VString "2.0.0"); ("port", VNumber 4002)]) k
        = Normal v ->
        truthy v = true -> typeof v = header_type k).
Proof.
  destruct (@headers_are_checked_when_truthy (Demo.externals []) (Demo.worker ∅))
    as (Hpassing & Hnested & Hexample).
  split; [|split].
  - eapply (Hnested _ (VString "p2p.peer.getPeers") _ _ "port");
      [reflexivity..|exact I].
  - apply Hexample; reflexivity.
  - eapply (Hpassing
      (call_frame "p2p.peer.getPeers"
         [("headers",
           VObject [("version", VString "2.0.0"); ("port", VNumber 4002)])]
         (VNumber 1))
      (VString "p2p.peer.getPeers")); reflexivity.
Defined.

(** C4, a run that departs from it: two sockets of 10.0.0.0/24 are hosted,
    the maximum is two, and a third attempt from that network is let
    through. *)
Lemma full_subnet_admits_one_more :
  Z.of_nat (length (@sameSubnetSockets (Demo.externals []) Demo.server "10.0.0.3"))
  = maxSameSubnetPeers (config (Demo.worker ∅))
  /\ @handleHandshake (Demo.externals []) (Demo.worker ∅) Demo.server 100000
       "10.0.0.3" (Demo.empty_world VUndefined)
     = (Normal (),
        after (Demo.empty_world VUndefined)
          [SendToMaster (isBlockedByRateLimit_request "10.0.0.3"); Next None]).
Proof. split; vm_compute; reflexivity. Qed.

Lemma subnet_check_rejects_above_maximum_witness :
  @reaches_subnet_check (Demo.externals []) (Demo.worker ∅) 100000 "10.0.0.3"
  /\ @handleHandshake (Demo.externals []) (Demo.worker ∅) Demo.server 100000
       "10.0.0.3" (Demo.empty_world VUndefined)
     = (Normal (),
        after (Demo.empty_world VUndefined)
          [SendToMaster (isBlockedByRateLimit_request "10.0.0.3"); Next None]).
Proof.
  assert (Hreach : @reaches_subnet_check (Demo.externals []) (Demo.worker ∅)
                     100000 "10.0.0.3") by concrete.
  split; [exact Hreach|].
  apply (proj1 (proj2
    (@subnet_check_rejects_above_maximum (Demo.externals []) (Demo.worker ∅)
       Demo.server 100000 "10.0.0.3" (Demo.empty_world VUndefined) Hreach))).
  vm_compute. discriminate.
Defined.

Lemma admission_rejects_recent_violators_witness :
  ipLastError (Demo.worker {[ "10.0.0.3" := 50000 ]}) !! "10.0.0.3" <> Some 0
  /\ @handleHandshake (Demo.externals [])
       (Demo.worker {[ "10.0.0.3" := 50000 ]}) Demo.server 100000 "10.0.0.3"
       (Demo.empty_world VUndefined)
     = (Normal (), after (Demo.empty_world VUndefined) [SocketDestroy]).
Proof.
  assert (Hclock : ipLastError (Demo.worker {[ "10.0.0.3" := 50000 ]})
                     !! "10.0.0.3" <> Some 0)
    by (vm_compute; discriminate).
  split; [exact Hclock|].
  apply (proj1
    (@admission_rejects_recent_violators (Demo.externals [])
       (Demo.worker {[ "10.0.0.3" := 50000 ]}) Demo.server 100000 "10.0.0.3"
       (Demo.empty_world VUndefined) Hclock) 50000); [reflexivity|lia].
Defined.

(** C7, a run that departs from it: the coordinator rejects the round trip
    about the rate-limit status of a well-formed call. The promise of
    [handleEmit] is rejected: the call fails, since [next] is never called,
    the socket is not terminated, and the application was never reported
    as not ready. *)
Lemma escaped_failure_leaves_the_connection_open :
  @handleEmit (Demo.failing "p2p.internal.getRateLimitStatus")
    "p2p.peer.postBlock" "10.0.0.3" Demo.call_world
  = (Thrown (Error "coordinator unavailable"),
     after Demo.call_world
       [SendToMaster (getRateLimitStatus_request "10.0.0.3" "p2p.peer.postBlock")])
  /\ ~ In SocketTerminate
        (effects (@handleEmit (Demo.failing "p2p.internal.getRateLimitStatus")
                    "p2p.peer.postBlock" "10.0.0.3" Demo.call_world).2)
  /\ (forall err,
        ~ In (Next err)
            (effects (@handleEmit (Demo.failing "p2p.internal.getRateLimitStatus")
                        "p2p.peer.postBlock" "10.0.0.3" Demo.call_world).2)).
Proof.
  split; [reflexivity|]. simpl.
  split; [intros [Hin | []]; discriminate|].
  intros err [Hin | []]; discriminate.
Qed.

Lemma not_ready_is_the_open_failure_witness :
  @passes_preliminaries (Demo.answering false false)
    "p2p.peer.getPeers" "10.0.0.3" Demo.call_world
  /\ @handleEmit (Demo.answering false false)
       "p2p.peer.getPeers" "10.0.0.3" Demo.call_world
     = (Normal (),
        after Demo.call_world
          [SendToMaster (getRateLimitStatus_request "10.0.0.3" "p2p.peer.getPeers");
           SendToMaster isAppReady_request;
           Next (Some (Error "App is not ready."))]).
Proof.
  assert (Hpre : @passes_preliminaries (Demo.answering false false)
                   "p2p.peer.getPeers" "10.0.0.3" Demo.call_world)
    by concrete.
  split; [exact Hpre|].
  apply (proj1
    (@not_ready_is_the_open_failure (Demo.answering false false)
       "p2p.peer.getPeers" "10.0.0.3" Demo.call_world) Hpre); concrete.
Defined.

Lemma privileged_calls_hinge_on_recognition_witness :
  @passes_preliminaries (Demo.answering true true)
    "p2p.peer.postBlock" "10.0.0.3" Demo.call_world
  /\ exists headers' data',
       set_prop (VObject [("version", VString "2.0.0")]) "remoteAddress"
         (VString "10.0.0.3") = Normal headers'
       /\ set_prop (req_data Demo.call_world) "headers" headers' = Normal data'
       /\ @handleEmit (Demo.answering true true)
            "p2p.peer.postBlock" "10.0.0.3" Demo.call_world
          = (Normal (),
             with_data data'
               (after Demo.call_world
                  ([SendToMaster
                      (getRateLimitStatus_request "10.0.0.3" "p2p.peer.postBlock");
                    SendToMaster isAppReady_request;
                    SendToMaster (isPeerOrForger_request "10.0.0.3")]
                   ++ @acceptNewPeer_effects (Demo.answering true true)
                        "10.0.0.3" (VObject [("version", VString "2.0.0")])
                   ++ [Next None]))).
Proof.
  assert (Hpre : @passes_preliminaries (Demo.answering true true)
                   "p2p.peer.postBlock" "10.0.0.3" Demo.call_world)
    by concrete.
  split; [exact Hpre|].
  refine (proj1 (proj2
    (@privileged_calls_hinge_on_recognition (Demo.answering true true)
       "p2p.peer.postBlock" "10.0.0.3" "postBlock" Demo.call_world
       (VObject [("type", VString "object")]) (VBool true)
       (Demo.answering true true) (or_introl eq_refl) Hpre eq_refl
       (or_introl eq_refl) _ _ _))
    eq_refl (VObject [("version", VString "2.0.0")]) eq_refl I); concrete.
Defined.

Lemma frames_after_disconnect_are_violations_witness :
  Demo.disconnect_text <> "#2"
  /\ ipLastError
       (@handlePayload_message (Demo.externals []) 3000 "10.0.0.3" "one more frame"
          (@handlePayload_messages (Demo.externals []) "10.0.0.3" [(2000, "#2")]
             (@handlePayload_message (Demo.externals []) 1000 "10.0.0.3"
                Demo.disconnect_text (Demo.worker ∅, fresh_ws)))).1
     !! "10.0.0.3" = Some 3000.
Proof.
  assert (Htext : Demo.disconnect_text <> "#2") by (vm_compute; discriminate).
  split; [exact Htext|].
  refine (proj1 (proj2
    (@frames_after_disconnect_are_violations (Demo.externals [])
       (Demo.worker ∅) fresh_ws 1000 "10.0.0.3" Demo.disconnect_text
       Demo.disconnect_frame [(2000, "#2")] 3000 "one more frame"
       Htext _ eq_refl eq_refl))).
  vm_compute. lia.
Defined.


(** C8, a run that departs from it: a call of [p2p.peer.postBlock] whose
    headers are null, from an address the coordinator recognizes. The frame
    passes the raw-frame listener and the call passes the check on the
    basic format, since [typeof null] is "object"; the notification is
    sent; the assignment of the address raises, the error is logged and the
    socket is terminated. [next] is not called: the call is not
    dispatched. *)
Lemma recognized_caller_with_null_headers_is_terminated :
  @answers_field (Demo.answering true true)
    (isPeerOrForger_request "10.0.0.3") "isPeerOrForger" (VBool true)
  /\ @on_frame (Demo.answering true true) 100000 "10.0.0.3"
       (call_frame "p2p.peer.postBlock"
          [("data", VObject []); ("headers", VNull)] (VNumber 1))
       (Demo.worker ∅, fresh_ws)
     = (Demo.worker ∅, fresh_ws)
  /\ @handleEmit (Demo.answering true true) "p2p.peer.postBlock" "10.0.0.3"
       (Demo.empty_world (VObject [("data", VObject []); ("headers", VNull)]))
     = (Normal (),
        after (Demo.empty_world (VObject [("data", VObject []); ("headers", VNull)]))
          [SendToMaster (getRateLimitStatus_request "10.0.0.3" "p2p.peer.postBlock");
           SendToMaster isAppReady_request;
           SendToMaster (isPeerOrForger_request "10.0.0.3");
           SendToMaster (acceptNewPeer_request "10.0.0.3" VNull);
           SendToMaster
             (log_request
                (VString "Cannot set properties of null (setting 'remoteAddress')")
                "error");
           SocketTerminate]).
Proof. split; [concrete|]. split; reflexivity. Qed.


(** * Further properties *)

(** ** Clock readings in double precision *)

(** The number of binary digits of a positive number. *)
Lemma digits2_pos_bounds p :
  2 ^ (Zpos (SpecFloat.digits2_pos p) - 1) <= Zpos p
  < 2 ^ Zpos (SpecFloat.digits2_pos p).
Proof.
  induction p as [p IH|p IH|]; simpl SpecFloat.digits2_pos.
  - rewrite Pos2Z.inj_succ.
    replace (Z.succ (Zpos (SpecFloat.digits2_pos p)) - 1)
      with (Z.succ (Zpos (SpecFloat.digits2_pos p) - 1)) by lia.
    rewrite !Z.pow_succ_r by lia. lia.
  - rewrite Pos2Z.inj_succ.
    replace (Z.succ (Zpos (SpecFloat.digits2_pos p)) - 1)
      with (Z.succ (Zpos (SpecFloat.digits2_pos p) - 1)) by lia.
    rewrite !Z.pow_succ_r by lia. lia.
  - simpl. lia.
Qed.

Lemma digits2_pos_unique p n :
  2 ^ (n - 1) <= Zpos p < 2 ^ n -> Zpos (SpecFloat.digits2_pos p) = n.
Proof.
  intros [Hlo Hhi]. pose proof (digits2_pos_bounds p) as [Hlo' Hhi'].
  assert (0 < n).
  { destruct (Z_lt_le_dec 0 n) as [|Hn]; [done|].
    exfalso. assert (2 ^ n <= 2 ^ 0) by (apply Z.pow_le_mono_r; lia).
    simpl in *. lia. }
  destruct (Z.lt_trichotomy (Zpos (SpecFloat.digits2_pos p)) n) as [Hlt | [Heq | Hgt]];
    [exfalso|done|exfalso].
  - assert (2 ^ Zpos (SpecFloat.digits2_pos p) <= 2 ^ (n - 1))
      by (apply Z.pow_le_mono_r; lia). lia.
  - assert (2 ^ n <= 2 ^ (Zpos (SpecFloat.digits2_pos p) - 1))
      by (apply Z.pow_le_mono_r; lia). lia.
Qed.

Lemma iter_xO_spec p d : Zpos (Pos.iter xO p d) = Zpos p * 2 ^ Zpos d.
Proof.
  induction d as [|d IH] using Pos.peano_ind.
  - simpl. lia.
  - rewrite Pos.iter_succ, Pos2Z.inj_succ, Z.pow_succ_r by lia.
    rewrite Pos2Z.inj_xO, IH. lia.
Qed.

Lemma fexp_double x : -1021 <= x -> SpecFloat.fexp 53 1024 x = x - 53.
Proof. intros Hx. unfold SpecFloat.fexp, SpecFloat.emin. lia. Qed.

Lemma shr_record_of_loc_m m l :
  SpecFloat.shr_m (SpecFloat.shr_record_of_loc m l) = m.
Proof. by destruct l as [|[]]. Qed.

Lemma loc_of_shr_record_of_loc m l :
  SpecFloat.loc_of_shr_record (SpecFloat.shr_record_of_loc m l) = l.
Proof. by destruct l as [|[]]. Qed.

Lemma round_nearest_even_bounds m l :
  m <= SpecFloat.round_nearest_even m l <= m + 1.
Proof.
  unfold SpecFloat.round_nearest_even.
  destruct l as [|[]]; try destruct (Z.even m); lia.
Qed.

Lemma Zdigits2_53 m : 2 ^ 52 <= m < 2 ^ 53 -> SpecFloat.Zdigits2 m = 53.
Proof.
  intros Hm. destruct m as [|p|p]; [simpl in Hm; lia| |lia].
  simpl. by apply digits2_pos_unique.
Qed.

(** A mantissa of 53 digits is rounded in place. *)
Lemma binary_round_aux_53 s m e l :
  2 ^ 52 <= m < 2 ^ 53 ->
  -1074 <= e <= 971 ->
  SpecFloat.round_nearest_even m l < 2 ^ 53 ->
  SpecFloat.binary_round_aux 53 1024 s m e l
  = SpecFloat.S754_finite s (Z.to_pos (SpecFloat.round_nearest_even m l)) e.
Proof.
  intros Hm He Hr.
  pose proof (round_nearest_even_bounds m l) as Hb.
  unfold SpecFloat.binary_round_aux, SpecFloat.shr_fexp.
  rewrite (Zdigits2_53 m Hm), (fexp_double (53 + e)) by lia.
  replace (53 + e - 53 - e) with 0 by lia. cbn [SpecFloat.shr].
  rewrite shr_record_of_loc_m, loc_of_shr_record_of_loc.
  rewrite (Zdigits2_53 (SpecFloat.round_nearest_even m l)) by lia.
  rewrite (fexp_double (53 + e)) by lia.
  replace (53 + e - 53 - e) with 0 by lia. cbn [SpecFloat.shr].
  cbn [SpecFloat.shr_record_of_loc SpecFloat.shr_m].
  destruct (SpecFloat.round_nearest_even m l) as [|r|r] eqn:Hround; [lia| |lia].
  assert (Z.leb e (1024 - 53) = true) as -> by (apply Z.leb_le; lia).
  reflexivity.
Qed.

(** A number of at most 53 digits is held exactly. *)
Lemma binary_round_exact s p e n :
  Zpos (SpecFloat.digits2_pos p) = n -> n <= 53 ->
  -1021 <= n + e <= 1024 ->
  SpecFloat.binary_round 53 1024 s p e
  = SpecFloat.S754_finite s (Z.to_pos (Zpos p * 2 ^ (53 - n))) (n + e - 53).
Proof.
  intros Hn Hle He. pose proof (digits2_pos_bounds p) as Hp. rewrite Hn in Hp.
  unfold SpecFloat.binary_round. rewrite Hn, fexp_double by lia.
  unfold SpecFloat.shl_align.
  destruct (n + e - 53 - e) as [|d|d] eqn:Hd; [|lia|].
  - assert (n = 53) as -> by lia.
    rewrite binary_round_aux_53; simpl SpecFloat.round_nearest_even; [|lia..].
    replace (53 + e - 53) with e by lia.
    by rewrite Z.sub_diag, Z.mul_1_r.
  - assert (Hd' : Zpos d = 53 - n) by lia.
    assert (Hpow : 2 ^ 52 <= Zpos (Pos.iter xO p d) < 2 ^ 53).
    { rewrite iter_xO_spec, Hd'.
      replace (2 ^ 52) with (2 ^ (n - 1) * 2 ^ (53 - n))
        by (rewrite <- Z.pow_add_r by lia; f_equal; lia).
      replace (2 ^ 53) with (2 ^ n * 2 ^ (53 - n))
        by (rewrite <- Z.pow_add_r by lia; f_equal; lia).
      assert (0 < 2 ^ (53 - n)) by (apply Z.pow_pos_nonneg; lia). nia. }
    rewrite binary_round_aux_53; simpl SpecFloat.round_nearest_even; [|lia..].
    by rewrite iter_xO_spec, Hd'.
Qed.

Lemma double_of_Z_41 t :
  2 ^ 40 <= t < 2 ^ 41 ->
  double_of_Z t = SpecFloat.S754_finite false (Z.to_pos (t * 2 ^ 12)) (-12).
Proof.
  intros Ht. destruct t as [|p|p]; [simpl in Ht; lia| |lia].
  unfold double_of_Z, SpecFloat.binary_normalize.
  by rewrite (binary_round_exact false p 0 41) by (try apply digits2_pos_unique; lia).
Qed.

Lemma double_of_1000 :
  double_of_Z 1000 = SpecFloat.S754_finite false 8796093022208000 (-43).
Proof. reflexivity. Qed.

Lemma double_of_1 :
  double_of_Z 1 = SpecFloat.S754_finite false 4503599627370496 (-52).
Proof. reflexivity. Qed.

Lemma seconds_zero : seconds 0 = SpecFloat.S754_zero false.
Proof. reflexivity. Qed.

Lemma div_eucl_div_mod a b : Z.div_eucl a b = (a / b, a mod b).
Proof. unfold Z.div, Z.modulo. by destruct (Z.div_eucl a b). Qed.

(** The quotient by 1000 of a clock reading between November 2004 and
    January 2038 has the exponent -22. *)
Lemma seconds_spec t :
  2 ^ 40 <= t < 2 ^ 31 * 1000 ->
  seconds t = SpecFloat.S754_finite false (Z.to_pos (seconds_mantissa t)) (-22)
  /\ 2 ^ 52 <= seconds_mantissa t < 2 ^ 53
  /\ t * 2 ^ 22 / 1000 <= seconds_mantissa t <= t * 2 ^ 22 / 1000 + 1.
Proof.
  intros Ht. unfold seconds, seconds_mantissa.
  rewrite double_of_Z_41, double_of_1000 by lia.
  assert (Hm : 2 ^ 52 <= t * 2 ^ 12 < 2 ^ 53) by lia.
  unfold SpecFloat.SFdiv, SpecFloat.SFdiv_core_binary.
  rewrite Z2Pos.id by lia.
  rewrite (Zdigits2_53 (t * 2 ^ 12) Hm).
  change (SpecFloat.fexp 53 1024
            (53 + -12 - (SpecFloat.Zdigits2 8796093022208000 + -43))
          `min` (-12 - -43)) with (-22).
  change (-12 - -43 - -22) with 53.
  cbv iota beta. rewrite Z.shiftl_mul_pow2 by lia.
  replace (t * 2 ^ 12 * 2 ^ 53) with (t * 2 ^ 65) by lia.
  change (IntDef.Z.div_eucl (t * 2 ^ 65) 8796093022208000)
    with (Z.div_eucl (t * 2 ^ 65) 8796093022208000).
  rewrite div_eucl_div_mod. cbv iota beta. cbn [xorb].
  assert (Hq : t * 2 ^ 65 / 8796093022208000 = t * 2 ^ 22 / 1000).
  { replace (t * 2 ^ 65) with (t * 2 ^ 22 * 2 ^ 43) by lia.
    replace 8796093022208000 with (1000 * 2 ^ 43) by lia.
    by rewrite Z.div_mul_cancel_r by lia. }
  rewrite Hq.
  assert (Hq52 : 2 ^ 52 <= t * 2 ^ 22 / 1000 < 2 ^ 53 - 1).
  { split; [apply Z.div_le_lower_bound|apply Z.div_lt_upper_bound]; lia. }
  pose proof (round_nearest_even_bounds (t * 2 ^ 22 / 1000)
                (SpecFloat.new_location 8796093022208000
                   ((t * 2 ^ 65) mod 8796093022208000))) as Hb.
  rewrite binary_round_aux_53 by lia.
  split; [reflexivity|]. lia.
Qed.

(** The digits of a number below 2^53. *)
Lemma digits2_pos_53 p :
  Zpos p < 2 ^ 53 -> 1 <= Zpos (SpecFloat.digits2_pos p) <= 53.
Proof.
  intros Hp. pose proof (digits2_pos_bounds p) as Hb. split; [lia|].
  destruct (Z_le_gt_dec (Zpos (SpecFloat.digits2_pos p)) 53) as [|Hgt]; [done|].
  exfalso.
  assert (2 ^ 53 <= 2 ^ (Zpos (SpecFloat.digits2_pos p) - 1))
    by (apply Z.pow_le_mono_r; lia).
  lia.
Qed.

(** The order of two positive doubles. *)
Lemma SFltb_finite m1 e1 m2 e2 :
  SpecFloat.SFltb (SpecFloat.S754_finite false m1 e1)
    (SpecFloat.S754_finite false m2 e2)
  = match Z.compare e1 e2 with
    | Lt => true
    | Gt => false
    | Eq => Pos.ltb m1 m2
    end.
Proof.
  unfold SpecFloat.SFltb, SpecFloat.SFcompare, Pos.ltb, Pos.compare.
  by destruct (Z.compare e1 e2).
Qed.

Lemma below_one_pos p :
  Zpos p < 2 ^ 53 ->
  SpecFloat.SFltb (SpecFloat.binary_normalize 53 1024 (Zpos p) (-22) false)
    (SpecFloat.S754_finite false 4503599627370496 (-52))
  = Z.ltb (Zpos p) (2 ^ 22).
Proof.
  intros HD.
  pose proof (digits2_pos_bounds p) as Hp.
  pose proof (digits2_pos_53 p HD) as Hn.
  remember (Zpos (SpecFloat.digits2_pos p)) as n eqn:Hndef.
  unfold SpecFloat.binary_normalize.
  rewrite (binary_round_exact false p (-22) n) by (done || lia).
  rewrite SFltb_finite.
  destruct (Z.compare_spec (n + -22 - 53) (-52)) as [Heq | Hlt | Hgt].
  - assert (n = 23) as -> by lia.
    replace (53 - 23) with 30 by lia.
    destruct (Pos.ltb_spec (Z.to_pos (Zpos p * 2 ^ 30)) 4503599627370496)
      as [Hlt' | Hge'].
    + exfalso. apply Pos2Z.pos_lt_pos in Hlt'. rewrite Z2Pos.id in Hlt' by lia.
      lia.
    + symmetry. apply Z.ltb_ge. lia.
  - symmetry. apply Z.ltb_lt.
    assert (2 ^ n <= 2 ^ 22) by (apply Z.pow_le_mono_r; lia). lia.
  - symmetry. apply Z.ltb_ge.
    assert (2 ^ 23 <= 2 ^ (n - 1)) by (apply Z.pow_le_mono_r; lia). lia.
Qed.

Lemma below_one_neg p :
  Zpos p < 2 ^ 53 ->
  SpecFloat.SFltb (SpecFloat.binary_normalize 53 1024 (Zneg p) (-22) false)
    (SpecFloat.S754_finite false 4503599627370496 (-52))
  = true.
Proof.
  intros HD. pose proof (digits2_pos_53 p HD) as Hn.
  unfold SpecFloat.binary_normalize.
  by rewrite (binary_round_exact true p (-22) (Zpos (SpecFloat.digits2_pos p)))
    by (done || lia).
Qed.

(** The comparison with 1 of a multiple of 2^-22. *)
Lemma below_one D :
  - 2 ^ 53 < D < 2 ^ 53 ->
  SpecFloat.SFltb (SpecFloat.binary_normalize 53 1024 D (-22) false)
    (double_of_Z 1)
  = Z.ltb D (2 ^ 22).
Proof.
  intros HD. rewrite double_of_1. destruct D as [|p|p].
  - reflexivity.
  - apply below_one_pos. lia.
  - rewrite below_one_neg by lia. reflexivity.
Qed.

(** The mantissas of two readings 1000 milliseconds apart are 2^22 apart. *)
Lemma seconds_mantissa_next t :
  seconds_mantissa (t + 1000) = seconds_mantissa t + 2 ^ 22.
Proof.
  unfold seconds_mantissa.
  replace ((t + 1000) * 2 ^ 65) with (t * 2 ^ 65 + 2 ^ 22 * 8796093022208000)
    by lia.
  rewrite Z.div_add, Z.mod_add by lia.
  unfold SpecFloat.round_nearest_even.
  destruct (SpecFloat.new_location _ _) as [|[]]; try lia.
  rewrite Z.even_add. change (Z.even (2 ^ 22)) with true.
  destruct (Z.even (t * 2 ^ 65 / 8796093022208000)); simpl; lia.
Qed.

(** Heartbeats read between November 2004 and January 2038 compare as less
    than a second apart exactly when they are less than 1000 milliseconds
    apart. *)
Lemma ping_within_second_spec t1 t2 :
  2 ^ 40 <= t1 < 2 ^ 31 * 1000 ->
  2 ^ 40 <= t2 < 2 ^ 31 * 1000 ->
  ping_within_second t2 t1 = Z.ltb (t2 - t1) 1000.
Proof.
  intros Ht1 Ht2.
  destruct (seconds_spec t1 Ht1) as (Hs1 & Hpos1 & HN1).
  destruct (seconds_spec t2 Ht2) as (Hs2 & Hpos2 & HN2).
  pose proof (Z.mul_div_le (t1 * 2 ^ 22) 1000 eq_refl) as Hlo1.
  pose proof (Z.mul_succ_div_gt (t1 * 2 ^ 22) 1000 eq_refl) as Hhi1.
  pose proof (Z.mul_div_le (t2 * 2 ^ 22) 1000 eq_refl) as Hlo2.
  pose proof (Z.mul_succ_div_gt (t2 * 2 ^ 22) 1000 eq_refl) as Hhi2.
  assert (Hsub : SpecFloat.SFsub 53 1024 (seconds t2) (seconds t1)
                 = SpecFloat.binary_normalize 53 1024
                     (seconds_mantissa t2 - seconds_mantissa t1) (-22) false).
  { rewrite Hs1, Hs2. unfold SpecFloat.SFsub, SpecFloat.shl_align.
    rewrite Z.min_id, Z.sub_diag. cbn [fst SpecFloat.cond_Zopp].
    by rewrite !Z2Pos.id by lia. }
  unfold ping_within_second. rewrite Hsub, below_one by lia.
  destruct (Z.ltb_spec (t2 - t1) 1000) as [Hd | Hd].
  - apply Z.ltb_lt. lia.
  - apply Z.ltb_ge.
    destruct (Z.eq_dec (t2 - t1) 1000) as [Heq | Hne]; [|lia].
    replace t2 with (t1 + 1000) by lia.
    rewrite seconds_mantissa_next. lia.
Qed.

(** ** The listeners of the raw socket *)

Section Listeners.
Context `{Externals}.

Lemma listener_step_refl now ip st : listener_step now ip st st.
Proof. unfold listener_step. repeat split; auto. Qed.

Lemma listener_step_violation now ip st :
  listener_step now ip st (setErrorForIpAndTerminate now ip st).
Proof.
  unfold listener_step. simpl. repeat split; auto.
  - intros other Hother. by rewrite lookup_insert_ne.
  - right. split; [apply lookup_insert_eq|done].
Qed.

(** Setting a flag of the socket after a step is still a step. *)
Lemma listener_step_flags now ip st W' ws' ws'' :
  listener_step now ip st (W', ws') ->
  terminated ws'' = terminated ws' ->
  (_disconnected ws' = true -> _disconnected ws'' = true) ->
  (_handshake ws' = true -> _handshake ws'' = true) ->
  listener_step now ip st (W', ws'').
Proof.
  unfold listener_step. simpl.
  intros (Hc & Hh & Ho & Hd & Hs & Ht & Hv) Hterm Hdis Hhand.
  rewrite Hterm. repeat split; auto.
Qed.

Lemma on_frame_step now ip parsed st :
  listener_step now ip st (on_frame now ip parsed st).
Proof.
  unfold on_frame, on_parsed.
  destruct (prop parsed "event") as [event| |e]; simpl;
    try apply listener_step_violation.
  destruct (is_string event "#disconnect").
  { destruct st as [W ws]. simpl.
    by apply (listener_step_flags now ip (W, ws) W ws);
      [apply listener_step_refl|..]. }
  destruct (is_string event "#handshake").
  { destruct (_handshake st.2).
    - pose proof (listener_step_violation now ip st) as Hstep.
      destruct (setErrorForIpAndTerminate now ip st) as [W' ws'] eqn:Hst'.
      simpl. by apply (listener_step_flags now ip st W' ws').
    - destruct st as [W ws]. simpl.
      by apply (listener_step_flags now ip (W, ws) W ws);
        [apply listener_step_refl|..]. }
  destruct (violates_envelope st.1 parsed event) as [[|]| |e]; simpl;
    first [apply listener_step_violation | apply listener_step_refl].
Qed.

Lemma message_listener_step now ip message st :
  listener_step now ip st (handlePayload_message now ip message st).
Proof.
  unfold handlePayload_message.
  destruct (_disconnected st.2); [apply listener_step_violation|].
  destruct (String.eqb message "#2").
  { destruct (ping_too_early now st.2).
    - pose proof (listener_step_violation now ip st) as Hstep.
      destruct (setErrorForIpAndTerminate now ip st) as [W' ws'] eqn:Hst'.
      simpl. by apply (listener_step_flags now ip st W' ws').
    - destruct st as [W ws]. simpl.
      by apply (listener_step_flags now ip (W, ws) W ws);
        [apply listener_step_refl|..]. }
  destruct (Nat.ltb _ _); [apply listener_step_violation|].
  destruct (JSON_parse message); [apply on_frame_step|apply listener_step_violation].
Qed.

(** X1. Whatever a listener of [handlePayload] receives, it leaves the
    configuration, the handlers and the violations recorded for the other
    addresses as they are; it clears no flag of the socket; and it either
    records nothing and terminates nothing, or records the clock reading for
    the address of the socket and terminates the socket. *)
Theorem listeners_touch_only_their_address (now : Z) (ip message : string)
  (st : Worker * WebSocket) :
  listener_step now ip st (handlePayload_message now ip message st)
  /\ listener_step now ip st (handlePayload_ping now ip st)
  /\ listener_step now ip st (handlePayload_pong now ip st).
Proof.
  split; [apply message_listener_step|].
  split; apply listener_step_violation.
Qed.

Lemma includes_In xs x : includes xs x = true <-> In x xs.
Proof.
  unfold includes. rewrite existsb_exists. split.
  - intros (y & Hin & Heq). apply String.eqb_eq in Heq. by subst.
  - intros Hin. exists x. split; [done|apply String.eqb_refl].
Qed.

Lemma keys_inside allowed keys :
  some_key_outside allowed keys = false ->
  Forall (fun key => In key allowed) keys.
Proof.
  intros Hout. apply some_key_outside_false in Hout.
  eapply Forall_impl; [exact Hout|]. intros key. apply includes_In.
Qed.

(** A frame of a call that passes the envelope check has the shape of a
    call of a registered handler. *)
Lemma passing_call_is_well_formed W parsed event :
  prop parsed "event" = Normal event ->
  is_string event "#disconnect" = false ->
  is_string event "#handshake" = false ->
  violates_envelope W parsed event = Normal false ->
  exists name, event = VString name /\ well_formed_call W parsed name.
Proof.
  intros Hevent Hd Hh Hpass. unfold violates_envelope in Hpass.
  destruct event as [| | | |name| | |]; try done. exists name. split; [done|].
  simpl in Hpass, Hd, Hh.
  destruct (prop parsed "data") as [data| |e] eqn:Hdata; try done.
  simpl in Hpass.
  destruct (String.eqb (typeof data) "object") eqn:Htype; [|done].
  apply String.eqb_eq in Htype. simpl in Hpass.
  destruct (hasAdditionalProperties parsed) as [[|]| |e] eqn:Hextra; try done.
  simpl in Hpass. rewrite Hd in Hpass.
  destruct (prop parsed "cid") as [cid| |e]; try done.
  simpl in Hpass. rewrite andb_false_r in Hpass.
  injection Hpass as Hreg. apply negb_false_iff, includes_In in Hreg.
  unfold hasAdditionalProperties in Hextra.
  destruct (Object_keys parsed) as [keys| |e] eqn:Hkeys; try done.
  simpl in Hextra.
  destruct (some_key_outside _ keys) eqn:Hout; [done|].
  rewrite Hevent in Hextra. simpl in Hextra. rewrite Hh, Hd in Hextra.
  simpl in Hextra.
  destruct (Nat.eqb (length (split_dot name)) 3) eqn:Hlen; [|done].
  apply Nat.eqb_eq in Hlen. simpl in Hextra. rewrite Hdata in Hextra.
  simpl in Hextra.
  destruct (Object_keys data) as [data_keys| |e] eqn:Hdkeys; try done.
  simpl in Hextra.
  destruct (some_key_outside _ data_keys) eqn:Hdout; [done|].
  repeat split; [done|done|..].
  - exists keys. split; [done|]. by apply keys_inside.
  - exists data, data_keys. repeat split; try done. by apply keys_inside.
Qed.

(** X2. A frame that the message listener lets through on a socket that is
    not terminated is the heartbeat, or it is ten characters long or more and
    parses to a value whose event is a string: the disconnect announcement,
    the handshake announcement, or the name of a registered handler with
    three segments, in a frame whose keys are among event, data, cid and
    whose data is of type object with keys among data and headers. *)
Theorem accepted_frames_are_well_formed (now : Z) (ip message : string)
  (W : Worker) (ws : WebSocket) :
  terminated ws = false ->
  terminated (handlePayload_message now ip message (W, ws)).2 = false ->
  message = "#2"
  \/ ((10 <= String.length message)%nat
      /\ exists parsed event,
           JSON_parse message = Some parsed
           /\ prop parsed "event" = Normal (VString event)
           /\ (event = "#disconnect" \/ event = "#handshake"
               \/ well_formed_call W parsed event)).
Proof.
  intros Halive Hpass. unfold handlePayload_message in Hpass. simpl in Hpass.
  destruct (_disconnected ws); [done|].
  destruct (String.eqb_spec message "#2") as [->|Hping]; [by left|]. right.
  destruct (Nat.ltb_spec (String.length message) 10) as [Hshort|Hlong]; [done|].
  split; [done|].
  destruct (JSON_parse message) as [parsed|] eqn:Hparse; [|done].
  exists parsed. unfold on_frame, on_parsed in Hpass.
  destruct (prop parsed "event") as [event| |e] eqn:Hevent; try done.
  simpl in Hpass.
  destruct (is_string event "#disconnect") eqn:Hd.
  { destruct event; try done. apply String.eqb_eq in Hd. subst.
    exists "#disconnect". auto. }
  destruct (is_string event "#handshake") eqn:Hh.
  { destruct event; try done. apply String.eqb_eq in Hh. subst.
    exists "#handshake". auto. }
  destruct (violates_envelope W parsed event) as [[|]| |e] eqn:Hverdict;
    try done.
  destruct (passing_call_is_well_formed W parsed event Hevent Hd Hh Hverdict)
    as (name & -> & Hwell).
  exists name. auto.
Qed.

(** X3. On a socket that has not announced a disconnect, a heartbeat always
    leaves its clock reading in [_lastPingTime], also when it is itself a
    violation. The first heartbeat of a socket is never a violation. A
    heartbeat read at [t2] that follows one read at [t1] is a violation
    exactly when [t1] is not 0 and the comparison of the listener holds of
    the two readings: each divided by 1000 in double precision, their
    difference, again in double precision, is below 1. For clock readings
    from 2^40 milliseconds (3 November 2004) up to 2^31 seconds (19 January
    2038), this is so exactly when the two are less than 1000 milliseconds
    apart: a heartbeat less than a second after the one before is a
    violation, one a second or more after it is not. *)
Theorem heartbeats_are_spaced (W : Worker) (ws : WebSocket) (t1 t2 : Z)
  (ip : string) :
  _disconnected ws = false ->
  let st1 := handlePayload_message t1 ip "#2" (W, ws) in
  let st2 := handlePayload_message t2 ip "#2" st1 in
  _lastPingTime st1.2 = Some t1
  /\ _lastPingTime st2.2 = Some t2
  /\ (_lastPingTime ws = None -> st1 = (W, set_lastPingTime t1 ws))
  /\ (t1 <> 0 -> ping_within_second t2 t1 = true ->
      ipLastError st2.1 !! ip = Some t2 /\ terminated st2.2 = true)
  /\ (t1 = 0 \/ ping_within_second t2 t1 = false ->
      st2.1 = st1.1 /\ terminated st2.2 = terminated st1.2)
  /\ (2 ^ 40 <= t1 < 2 ^ 31 * 1000 ->
      2 ^ 40 <= t2 < 2 ^ 31 * 1000 ->
      (t2 - t1 < 1000 ->
       ipLastError st2.1 !! ip = Some t2 /\ terminated st2.2 = true)
      /\ (1000 <= t2 - t1 ->
          st2.1 = st1.1 /\ terminated st2.2 = terminated st1.2)).
Proof.
  intros Hd st1 st2.
  assert (Hst1 : _lastPingTime st1.2 = Some t1 /\ _disconnected st1.2 = false).
  { unfold st1, handlePayload_message. simpl. rewrite Hd.
    by destruct (ping_too_early t1 ws). }
  destruct Hst1 as [Hlast1 Hd1].
  assert (Hearly : ping_too_early t2 st1.2
                   = negb (Z.eqb t1 0) && ping_within_second t2 t1).
  { unfold ping_too_early. by rewrite Hlast1. }
  assert (Hst2 : st2 = let st' := if negb (Z.eqb t1 0) && ping_within_second t2 t1
                                  then setErrorForIpAndTerminate t2 ip st1
                                  else st1 in
                       (st'.1, set_lastPingTime t2 st'.2)).
  { unfold st2, handlePayload_message. by rewrite Hd1, Hearly. }
  assert (Hviolation : t1 <> 0 -> ping_within_second t2 t1 = true ->
            ipLastError st2.1 !! ip = Some t2 /\ terminated st2.2 = true).
  { intros Ht1 Hclose. rewrite Hst2.
    apply Z.eqb_neq in Ht1. rewrite Ht1, Hclose. simpl.
    split; [apply lookup_insert_eq|done]. }
  assert (Hpass : t1 = 0 \/ ping_within_second t2 t1 = false ->
            st2.1 = st1.1 /\ terminated st2.2 = terminated st1.2).
  { intros Hfar. rewrite Hst2.
    assert (negb (Z.eqb t1 0) && ping_within_second t2 t1 = false) as ->.
    { destruct Hfar as [-> | ->]; [done|apply andb_false_r]. }
    done. }
  split; [done|]. split; [by rewrite Hst2|]. split; [|split; [|split]];
    [|done|done|].
  - intros Hnone. unfold st1, handlePayload_message, ping_too_early. simpl.
    by rewrite Hd, Hnone.
  - intros Ht1 Ht2. pose proof (ping_within_second_spec t1 t2 Ht1 Ht2) as Hspec.
    split; intros Hapart.
    + apply Hviolation; [lia|]. rewrite Hspec. apply Z.ltb_lt. lia.
    + apply Hpass. right. rewrite Hspec. apply Z.ltb_ge. lia.
Qed.

Lemma messages_keep_handshake ip frames st :
  _handshake st.2 = true ->
  _handshake (handlePayload_messages ip frames st).2 = true.
Proof.
  revert st. induction frames as [|[now message] frames IH]; intros st Hh; [done|].
  simpl. apply IH.
  by apply (message_listener_step now ip message st).
Qed.

(** X4. A frame that announces the handshake is taken as such whatever
    else it holds: on a socket that has not seen one it sets [_handshake]
    and nothing more. Once a socket has seen one, every later frame of the
    connection that announces the handshake records a violation for the
    address and terminates the socket. *)
Theorem handshake_is_announced_once (W : Worker) (ws : WebSocket) (now : Z)
  (ip : string) (parsed : value) :
  prop parsed "event" = Normal (VString "#handshake") ->
  (_handshake ws = false ->
   on_frame now ip parsed (W, ws) = (W, set_handshake ws))
  /\ (forall frames t message parsed',
        message <> "#2" ->
        (10 <= String.length message)%nat ->
        JSON_parse message = Some parsed' ->
        prop parsed' "event" = Normal (VString "#handshake") ->
        let st1 := handlePayload_messages ip frames (on_frame now ip parsed (W, ws)) in
        let st2 := handlePayload_message t ip message st1 in
        ipLastError st2.1 !! ip = Some t /\ terminated st2.2 = true).
Proof.
  intros Hevent. split.
  - intros Hfirst. unfold on_frame, on_parsed. rewrite Hevent. simpl.
    by rewrite Hfirst.
  - intros frames t message parsed' Hping Hlen Hparse Hevent' st1 st2.
    assert (Hseen : _handshake st1.2 = true).
    { apply messages_keep_handshake. unfold on_frame, on_parsed.
      rewrite Hevent. simpl. by destruct (_handshake ws). }
    unfold st2, handlePayload_message.
    destruct (_disconnected st1.2).
    { simpl. split; [apply lookup_insert_eq|done]. }
    apply String.eqb_neq in Hping. rewrite Hping.
    assert (Nat.ltb (String.length message) 10 = false) as ->
      by (apply Nat.ltb_ge; lia).
    rewrite Hparse. unfold on_frame, on_parsed. rewrite Hevent'. simpl.
    rewrite Hseen. simpl. split; [apply lookup_insert_eq|done].
Qed.

(** X5. A violation recorded for an address at a clock reading other than 0
    penalizes that address at admission until 60 seconds have passed, and
    at 60 seconds and later no more; it replaces whatever was recorded for
    the address before and changes the standing of no other address. *)
Theorem violations_penalize_for_a_minute (now t : Z) (ip : string)
  (st : Worker * WebSocket) :
  ipLastError (setErrorForIpAndTerminate now ip st).1 !! ip = Some now
  /\ (penalized (setErrorForIpAndTerminate now ip st).1 t ip = true
      <-> now <> 0 /\ t - now < 60 * 1000)
  /\ (forall other, other <> ip ->
        penalized (setErrorForIpAndTerminate now ip st).1 t other
        = penalized st.1 t other).
Proof.
  assert (Hrecord : ipLastError (setErrorForIpAndTerminate now ip st).1 !! ip
                    = Some now) by apply lookup_insert_eq.
  split; [done|]. split.
  - rewrite penalized_spec. rewrite Hrecord. unfold MINUTE_IN_MILLISECONDS.
    split.
    + intros (last & [= <-] & Hz & Hage). split; [done|lia].
    + intros [Hz Hage]. exists now. repeat split; [done|lia].
  - intros other Hother. unfold penalized. simpl.
    by rewrite lookup_insert_ne.
Qed.

End Listeners.

(** ** Loading the handlers *)

Section Loading.
Context `{Externals}.

Lemma split_dot_nonempty s : (1 <= length (split_dot s))%nat.
Proof.
  induction s as [|c s IH]; simpl; [lia|].
  destruct (Ascii.eqb c "."%char); simpl; [lia|].
  destruct (split_dot s); simpl; lia.
Qed.

Lemma split_dot_dotless s : dotless s = true -> split_dot s = [s].
Proof.
  induction s as [|c s IH]; simpl; [done|].
  intros [Hc Hs]%andb_true_iff. apply negb_true_iff in Hc. rewrite Hc.
  by rewrite (IH Hs).
Qed.

Lemma split_dot_one_segment s :
  length (split_dot s) = 1%nat -> dotless s = true.
Proof.
  induction s as [|c s IH]; simpl; [done|].
  destruct (Ascii.eqb c "."%char); simpl.
  - pose proof (split_dot_nonempty s). lia.
  - pose proof (split_dot_nonempty s) as Hne.
    destruct (split_dot s) as [|seg segs] eqn:Hs; simpl in *; [lia|].
    intros Hlen. apply IH. lia.
Qed.

(** The segments of two strings put together: the last of the first and the
    first of the second become one. *)
Lemma split_dot_app_length a b :
  (length (split_dot (a +:+ b)) + 1
   = length (split_dot a) + length (split_dot b))%nat.
Proof.
  induction a as [|c a IH].
  - change ("" +:+ b) with b. simpl. lia.
  - change (String c a +:+ b) with (String c (a +:+ b)).
    cbn [split_dot]. destruct (Ascii.eqb c "."%char).
    + cbn [length]. lia.
    + pose proof (split_dot_nonempty (a +:+ b)) as Hab.
      pose proof (split_dot_nonempty a) as Ha.
      pose proof (split_dot_nonempty b) as Hb.
      destruct (split_dot (a +:+ b)) as [|seg segs];
        destruct (split_dot a) as [|seg' segs']; cbn [length] in *; lia.
Qed.

Lemma split_dot_after_dotless a b :
  dotless a = true -> split_dot (a +:+ "." +:+ b) = a :: split_dot b.
Proof.
  induction a as [|c a IH]; simpl; [done|].
  intros [Hc Ha]%andb_true_iff. apply negb_true_iff in Hc. rewrite Hc.
  by rewrite (IH Ha).
Qed.

Lemma handler_name_segments version handler :
  length (split_dot (handler_name version (VString handler)))
  = (1 + length (split_dot version) + length (split_dot handler))%nat.
Proof.
  unfold handler_name. simpl ToString.
  change ("p2p." +:+ version +:+ "." +:+ handler)
    with ("p2p" +:+ "." +:+ (version +:+ "." +:+ handler)).
  rewrite (split_dot_after_dotless "p2p") by done.
  pose proof (split_dot_app_length version ("." +:+ handler)) as Hlen.
  change (split_dot ("." +:+ handler)) with ("" :: split_dot handler) in Hlen.
  cbn [length] in *. lia.
Qed.

(** X6. The name [loadHandlers] gives to a handler of a version splits back
    into p2p, the version and the handler when neither of the two holds a
    dot. It has three segments in that case only: the frame of a call of a
    handler loaded under a name with a dot in its version or handler never
    has the shape the envelope check asks for. *)
Theorem handler_names_split_back (version handler : string) :
  (dotless version = true -> dotless handler = true ->
   split_dot (handler_name version (VString handler))
   = ["p2p"; version; handler])
  /\ (length (split_dot (handler_name version (VString handler))) = 3%nat
      <-> dotless version = true /\ dotless handler = true)
  /\ (dotless version && dotless handler = false ->
      forall W parsed,
        ~ well_formed_call W parsed (handler_name version (VString handler))).
Proof.
  assert (Hiff :
    length (split_dot (handler_name version (VString handler))) = 3%nat
    <-> dotless version = true /\ dotless handler = true).
  { rewrite handler_name_segments.
    pose proof (split_dot_nonempty version).
    pose proof (split_dot_nonempty handler). split.
    - intros Hlen. split; apply split_dot_one_segment; lia.
    - intros [Hv Hh].
      rewrite (split_dot_dotless _ Hv), (split_dot_dotless _ Hh). done. }
  split; [|split; [exact Hiff|]].
  - intros Hv Hh. unfold handler_name. simpl ToString.
    change ("p2p." +:+ version +:+ "." +:+ handler)
      with ("p2p" +:+ "." +:+ (version +:+ "." +:+ handler)).
    rewrite (split_dot_after_dotless "p2p") by done.
    rewrite (split_dot_after_dotless version) by done.
    by rewrite (split_dot_dotless _ Hh).
  - intros Hdot W parsed (_ & Hlen & _).
    apply Hiff in Hlen as [Hv Hh]. by rewrite Hv, Hh in Hdot.
Qed.

Lemma Object_values_own hs names :
  Object_values hs = Normal names -> names = (own_properties hs).*2.
Proof. destruct hs; simpl; intros; by simplify_eq. Qed.

(** What the loops of [loadHandlers] leave: the handlers there were, then
    names made from the entries; all of them when the loops run to their
    end. *)
Lemma push_handlers_spec entries hs o hs' :
  push_handlers entries hs = (o, hs') ->
  exists added,
    hs' = hs ++ added
    /\ (forall name, In name added ->
          exists version handlers handler,
            In (version, handlers) entries
            /\ In handler (own_properties handlers).*2
            /\ name = handler_name version handler)
    /\ (o = Normal () ->
        forall version handlers handler,
          In (version, handlers) entries ->
          In handler (own_properties handlers).*2 ->
          In (handler_name version handler) added).
Proof.
  revert hs. induction entries as [|[version handlers] rest IH]; intros hs; simpl.
  - intros [= <- <-]. exists []. rewrite app_nil_r. repeat split; [|done..].
    intros name [].
  - destruct (Object_values handlers) as [names| |e] eqn:Hnames.
    + apply Object_values_own in Hnames as ->. intros Hrest.
      destruct (IH _ Hrest) as (added & -> & Honly & Hall).
      exists ((handler_name version <$> (own_properties handlers).*2) ++ added).
      split; [by rewrite app_assoc|]. split.
      * intros name [Hin | Hin]%in_app_or.
        -- apply list_elem_of_In, list_elem_of_fmap in Hin as (handler & -> & Hin).
           exists version, handlers, handler.
           split; [by left|]. split; [by apply list_elem_of_In|done].
        -- destruct (Honly name Hin) as (v & hs0 & h & Hentry & Hh & ->).
           exists v, hs0, h. split; [by right|done].
      * intros Ho v hs0 h [[= <- <-] | Hentry] Hh; apply in_or_app.
        -- left. apply list_elem_of_In, list_elem_of_fmap. exists h.
           split; [done|by apply list_elem_of_In].
        -- right. by apply (Hall Ho v hs0 h).
    + intros [= <- <-]. exists []. rewrite app_nil_r. repeat split; [|done].
      intros name [].
    + intros [= <- <-]. exists []. rewrite app_nil_r. repeat split; [|done].
      intros name [].
Qed.

(** The run of [loadHandlers], by what the coordinator does. *)
Lemma loadHandlers_cases W w :
  let asked := after w [SendToMaster (request "p2p.utils.getHandlers" [])] in
  (exists err, rejects (request "p2p.utils.getHandlers" []) err
     /\ loadHandlers W w = (Thrown err, W, asked))
  \/ (exists reply, answers (request "p2p.utils.getHandlers" []) reply
      /\ ((exists e, prop reply "data" = Thrown e
             /\ loadHandlers W w = (Thrown e, W, asked))
          \/ (exists data, prop reply "data" = Normal data
              /\ ((exists e, Object_entries data = Thrown e
                     /\ loadHandlers W w = (Thrown e, W, asked))
                  \/ (exists entries o hs,
                        Object_entries data = Normal entries
                        /\ push_handlers entries (handlers W) = (o, hs)
                        /\ loadHandlers W w = (o, set_handlers hs W, asked)))))).
Proof.
  intros asked. unfold loadHandlers.
  destruct (sendToMasterAsync_cases "p2p.utils.getHandlers" [] w)
    as [(reply & Hans & Hrun) | (err & Hrej & Hrun)].
  - right. exists reply. split; [done|].
    erewrite bind_normal by exact Hrun. unfold lift.
    pose proof (prop_safe reply "data") as Hsafe.
    destruct (prop reply "data") as [data| |e]; [|done|].
    + right. exists data. split; [done|].
      destruct (Object_entries data) as [entries| |e] eqn:Hentries.
      * right. destruct (push_handlers entries (handlers W)) as [o hs] eqn:Hpush.
        by exists entries, o, hs.
      * by destruct data.
      * left. by exists e.
    + left. by exists e.
  - left. exists err. split; [done|]. by erewrite bind_thrown by exact Hrun.
Qed.

(** X7. When [loadHandlers] runs to its end, the coordinator has answered
    with a reply whose data has entries, and the handlers of the worker are
    the ones it had together with the name of every handler of every
    version among these entries. *)
Theorem loadHandlers_loads_every_entry (W W' : Worker) (w w' : world) :
  loadHandlers W w = (Normal (), W', w') ->
  exists reply data entries,
    answers (request "p2p.utils.getHandlers" []) reply
    /\ prop reply "data" = Normal data
    /\ Object_entries data = Normal entries
    /\ (forall name,
          In name (handlers W')
          <-> In name (handlers W)
              \/ exists version handlers handler,
                   In (version, handlers) entries
                   /\ In handler (own_properties handlers).*2
                   /\ name = handler_name version handler).
Proof.
  intros Hrun.
  destruct (loadHandlers_cases W w)
    as [(err & _ & Hcase)
       | (reply & Hans & [(e & _ & Hcase)
                         | (data & Hdata & [(e & _ & Hcase)
                                           | (entries & o & hs & Hentries & Hpush & Hcase)])])];
    rewrite Hcase in Hrun; try done.
  injection Hrun as -> <- _.
  exists reply, data, entries. repeat split; try done.
  - destruct (push_handlers_spec _ _ _ _ Hpush) as (added & -> & Honly & _).
    simpl. intros [Hin | Hin]%in_app_or; [by left|right; by apply Honly].
  - destruct (push_handlers_spec _ _ _ _ Hpush) as (added & -> & _ & Hall).
    simpl. intros [Hin | (version & hs0 & handler & Hentry & Hh & ->)];
      apply in_or_app; [by left|right].
    exact (Hall eq_refl version hs0 handler Hentry Hh).
Qed.

(** X8. However [loadHandlers] ends, it has sent one message to the
    coordinator and nothing else has happened; the configuration and the
    recorded violations are as they were, and the handlers the worker had
    still come first, in their order. When the coordinator rejects the round
    trip, the promise is rejected with its error and the worker is as it
    was. *)
Theorem loadHandlers_keeps_the_worker (W : Worker) (w : world) :
  (loadHandlers W w).2 = after w [SendToMaster (request "p2p.utils.getHandlers" [])]
  /\ config (loadHandlers W w).1.2 = config W
  /\ ipLastError (loadHandlers W w).1.2 = ipLastError W
  /\ (exists added, handlers (loadHandlers W w).1.2 = handlers W ++ added)
  /\ (forall err,
        rejects (request "p2p.utils.getHandlers" []) err ->
        (loadHandlers W w).1 = (Thrown err, W)).
Proof.
  destruct (loadHandlers_cases W w)
    as [(err & Hrej & Hcase)
       | (reply & Hans & [(e & _ & Hcase)
                         | (data & Hdata & [(e & _ & Hcase)
                                           | (entries & o & hs & Hentries & Hpush & Hcase)])])];
    rewrite Hcase; simpl.
  1-3: repeat split; try done; try (exists []; by rewrite app_nil_r).
  - intros err' (res' & Hsend' & _). destruct Hrej as (res & Hsend & _).
    rewrite Hsend in Hsend'. by simplify_eq.
  - intros err (res & Hsend & Herr). destruct Hans as (err' & Hsend' & Herr').
    rewrite Hsend in Hsend'. simplify_eq. congruence.
  - intros err (res & Hsend & Herr). destruct Hans as (err' & Hsend' & Herr').
    rewrite Hsend in Hsend'. simplify_eq. congruence.
  - repeat split; try done.
    + destruct (push_handlers_spec _ _ _ _ Hpush) as (added & -> & _).
      by exists added.
    + intros err (res & Hsend & Herr). destruct Hans as (err' & Hsend' & Herr').
      rewrite Hsend in Hsend'. simplify_eq. congruence.
Qed.

End Loading.

(** ** Dispatch *)

Section Dispatch.
Context `{Externals}.

Lemma assoc_assign_same k v fields : assoc k (assign k v fields) = Some v.
Proof.
  induction fields as [|[k0 v0] fields IH]; simpl.
  - by rewrite String.eqb_refl.
  - destruct (String.eqb_spec k0 k) as [->|Hk0]; simpl.
    + by rewrite String.eqb_refl.
    + destruct (String.eqb_spec k0 k); [done|apply IH].
Qed.

Lemma assoc_None k fields : assoc k fields = None <-> ~ In k fields.*1.
Proof.
  induction fields as [|[k0 v0] fields IH]; simpl; [tauto|].
  destruct (String.eqb_spec k0 k) as [->|Hk0]; [split; [done|tauto]|].
  rewrite IH. tauto.
Qed.

Lemma assoc_filter_other k k0 fields :
  k <> k0 ->
  assoc k (List.filter (fun kv => negb (String.eqb kv.1 k0)) fields)
  = assoc k fields.
Proof.
  intros Hne. induction fields as [|[k1 v1] fields IH]; simpl; [done|].
  destruct (String.eqb_spec k1 k0) as [->|Hk1]; simpl.
  - destruct (String.eqb_spec k0 k); [congruence|done].
  - by rewrite IH.
Qed.

(** Dropping the shadowed entries changes no property. *)
Lemma assoc_visible k fields : assoc k (visible fields) = assoc k fields.
Proof.
  induction fields as [|[k0 v0] fields IH]; simpl; [done|].
  destruct (String.eqb_spec k0 k) as [->|Hk0]; [done|].
  rewrite assoc_filter_other by done. apply IH.
Qed.

Lemma In_filter_keys k k0 (fields : list (string * value)) :
  In k (List.filter (fun kv => negb (String.eqb kv.1 k0)) fields).*1 ->
  k <> k0 /\ In k fields.*1.
Proof.
  induction fields as [|[k1 v1] fields IH]; simpl; [done|].
  destruct (String.eqb_spec k1 k0) as [->|Hk1]; simpl.
  - intros Hin. destruct (IH Hin). auto.
  - intros [<- | Hin]; [auto|]. destruct (IH Hin). auto.
Qed.

Lemma NoDup_filter_keys k0 (fields : list (string * value)) :
  NoDup fields.*1 ->
  NoDup (List.filter (fun kv => negb (String.eqb kv.1 k0)) fields).*1.
Proof.
  induction fields as [|[k1 v1] fields IH]; simpl; [done|].
  intros [Hk1 Hrest]%NoDup_cons.
  destruct (String.eqb k1 k0); simpl; [by apply IH|].
  apply NoDup_cons. split; [|by apply IH].
  intros Hin%list_elem_of_In%In_filter_keys. apply Hk1.
  apply list_elem_of_In. tauto.
Qed.

Lemma NoDup_visible fields : NoDup (visible fields).*1.
Proof.
  induction fields as [|[k0 v0] fields IH]; simpl; [constructor|].
  apply NoDup_cons. split; [|by apply NoDup_filter_keys].
  intros Hin%list_elem_of_In%In_filter_keys. tauto.
Qed.

Lemma fst_zip_same {A B : Type} (ks : list A) (vs : list B) :
  length ks = length vs -> (zip ks vs).*1 = ks.
Proof. intros Hlen. apply fst_zip. lia. Qed.

Lemma length_characters s : length (characters s) = String.length s.
Proof. induction s; simpl; congruence. Qed.

Lemma NoDup_indices n : NoDup (indices n).
Proof. unfold indices. apply NoDup_fmap_2; [apply _|apply NoDup_seq]. Qed.

Lemma length_indices n : length (indices n) = n.
Proof. unfold indices. by rewrite length_fmap, length_seq. Qed.

(** No name comes twice among the own properties of a value. *)
Lemma NoDup_own_properties v : NoDup (own_properties v).*1.
Proof.
  destruct v; simpl; try constructor; try apply NoDup_visible.
  rewrite fst_zip_same; [apply NoDup_indices|].
  by rewrite length_indices, length_characters.
Qed.

(** A property of a spread is the one of the value spread last when it has
    one, and the one of the base otherwise. *)
Lemma assoc_fold_assign k l base :
  NoDup l.*1 ->
  assoc k (fold_left (fun fields kv => assign kv.1 kv.2 fields) l base)
  = match assoc k l with
    | Some x => Some x
    | None => assoc k base
    end.
Proof.
  revert base. induction l as [|[k0 v0] l IH]; intros base; simpl; [done|].
  intros [Hk0 Hrest]%NoDup_cons. rewrite (IH _ Hrest).
  destruct (String.eqb_spec k0 k) as [->|Hne].
  - assert (assoc k l = None) as ->.
    { apply assoc_None. intros Hin. apply Hk0. by apply list_elem_of_In. }
    apply assoc_assign_same.
  - destruct (assoc k l); [done|]. by apply assoc_assign_other.
Qed.

Lemma assoc_spread_into k base v :
  assoc k (spread_into base v)
  = match assoc k (own_properties v) with
    | Some x => Some x
    | None => assoc k base
    end.
Proof. apply assoc_fold_assign, NoDup_own_properties. Qed.

Lemma visible_NoDup fields : NoDup fields.*1 -> visible fields = fields.
Proof.
  induction fields as [|[k0 v0] fields IH]; simpl; [done|].
  intros [Hk0 Hrest]%NoDup_cons. rewrite (IH Hrest). f_equal.
  clear IH Hrest. induction fields as [|[k1 v1] fields IH]; simpl; [done|].
  destruct (String.eqb_spec k1 k0) as [->|Hne]; simpl.
  - exfalso. apply Hk0. simpl. left.
  - f_equal. apply IH. intros Hin. apply Hk0. simpl. by right.
Qed.

Lemma assign_fresh k v fields :
  ~ In k fields.*1 -> assign k v fields = fields ++ [(k, v)].
Proof.
  induction fields as [|[k0 v0] fields IH]; simpl; [done|].
  intros Hk. destruct (String.eqb_spec k0 k) as [->|Hne]; [tauto|].
  rewrite IH; [done|tauto].
Qed.

(** Spreading an object with as many names as entries, none of them a name
    of the base, puts its entries after the base: the message of
    [sendToMasterAsync] for an object literal. *)
Lemma spread_into_literal base fields :
  NoDup fields.*1 ->
  (forall k, In k fields.*1 -> ~ In k base.*1) ->
  spread_into base (VObject fields) = base ++ fields.
Proof.
  intros Hnodup Hfresh. unfold spread_into. simpl.
  rewrite (visible_NoDup _ Hnodup).
  revert base Hfresh. induction fields as [|[k0 v0] fields IH]; intros base Hfresh.
  - simpl. by rewrite app_nil_r.
  - apply NoDup_cons in Hnodup as [Hk0 Hrest]. simpl.
    rewrite assign_fresh by (apply Hfresh; by left).
    rewrite (IH Hrest).
    + by rewrite <- app_assoc.
    + intros k Hk. rewrite fmap_app. simpl.
      intros [Hin | [<- | []]]%in_app_or.
      * apply (Hfresh k); [by right|done].
      * apply Hk0. by apply list_elem_of_In.
Qed.

Lemma sendToMasterAsync_with_literal endpoint fields :
  NoDup fields.*1 ->
  ~ In "endpoint" fields.*1 ->
  sendToMasterAsync_with endpoint (VObject fields)
  = sendToMasterAsync endpoint fields.
Proof.
  intros Hnodup Hfresh. unfold sendToMasterAsync_with, sendToMasterAsync.
  rewrite spread_into_literal; [done|done|].
  intros k Hk [<- | []]. done.
Qed.

(** X9. A socket listens to the registered handlers and to nothing else,
    each with the same listener. The listener sends one message to the
    coordinator and never raises: it calls [res] with the reply when the
    coordinator answers, and with the error when the coordinator rejects. *)
Theorem dispatch_never_raises (W : Worker) (handler : string) (data : value)
  (w : world) :
  let message := VObject (spread_into [("endpoint", VString handler)] data) in
  (forall event listener,
     In (event, listener) (handleConnection W)
     <-> In event (handlers W) /\ listener = dispatch event)
  /\ (dispatch handler data w).2 = after w [SendToMaster message]
  /\ ((exists reply,
         answers message reply
         /\ (dispatch handler data w).1 = Normal (VUndefined, reply))
      \/ (exists err,
            rejects message err
            /\ (dispatch handler data w).1 = Normal (err, VUndefined))).
Proof.
  intros message. split; [|].
  - intros event listener. unfold handleConnection.
    rewrite <- list_elem_of_In, list_elem_of_fmap. split.
    + intros (name & [= -> ->] & Hin). split; [by apply list_elem_of_In|done].
    + intros [Hin ->]. exists event. split; [done|by apply list_elem_of_In].
  - unfold dispatch, sendToMasterAsync_with. fold message.
    monad_unfold. simpl.
    destruct (sendToMaster message) as [err res] eqn:Hsend.
    destruct (truthy err) eqn:Herr; simpl.
    + split; [done|]. right. exists err. split; [by exists res|done].
    + split; [done|]. left. exists res. split; [by exists err|done].
Qed.

(** X10. The message a listener sends holds every own property of the data
    of the call. It goes to the endpoint of the handler unless the data has
    an own property endpoint, which then takes its place; data whose keys
    are among data and headers, as the envelope check leaves them, goes to
    the endpoint of the handler. *)
Theorem dispatch_endpoint (handler : string) (data : value) :
  let message := VObject (spread_into [("endpoint", VString handler)] data) in
  (forall k v, assoc k (own_properties data) = Some v ->
               prop message k = Normal v)
  /\ (assoc "endpoint" (own_properties data) = None ->
      prop message "endpoint" = Normal (VString handler))
  /\ (Forall (fun key => In key ["data"; "headers"]) (own_properties data).*1 ->
      prop message "endpoint" = Normal (VString handler)).
Proof.
  intros message.
  assert (Hown : forall k v, assoc k (own_properties data) = Some v ->
                             prop message k = Normal v).
  { intros k v Hk. unfold message. simpl.
    by rewrite assoc_spread_into, Hk. }
  assert (Hnone : assoc "endpoint" (own_properties data) = None ->
                  prop message "endpoint" = Normal (VString handler)).
  { intros Hk. unfold message. simpl. by rewrite assoc_spread_into, Hk. }
  split; [done|]. split; [done|].
  intros Hkeys. apply Hnone, assoc_None. intros Hin.
  rewrite Forall_forall in Hkeys.
  apply list_elem_of_In, Hkeys in Hin. simpl in Hin.
  destruct Hin as [Heq | [Heq | []]]; discriminate.
Qed.

End Dispatch.

(** ** The decision of the admission middleware *)

Section AdmissionDecision.
Context `{Externals}.

(** X11. When the coordinator answers the question about the rate limit
    with a reply that holds [data.blocked], the admission middleware never
    raises and calls [next()] exactly when the address is not penalized, the
    reply does not say blocked, the address is not on the blacklist (an
    absent blacklist holds nobody) and its /24 network hosts no more sockets
    than the maximum; in every other case it destroys the raw socket and does
    not call [next]. *)
Theorem admission_decides_on_four_checks (W : Worker) (server : SCServer)
  (now : Z) (ip : string) (w : world) (blocked : value) :
  answers_field (isBlockedByRateLimit_request ip) "blocked" blocked ->
  let admitted :=
    penalized W now ip = false
    /\ truthy blocked = false
    /\ ~ In ip (default [] (blacklist (config W)))
    /\ Z.of_nat (length (sameSubnetSockets server ip))
       <= maxSameSubnetPeers (config W) in
  exists added,
    handleHandshake W server now ip w = (Normal (), after w added)
    /\ (In (Next None) added <-> admitted)
    /\ (In SocketDestroy added <-> ~ admitted).
Proof.
  intros (reply & data & Hans & Hdata & Hblocked) admitted. unfold admitted.
  destruct (penalized W now ip) eqn:Hp.
  { exists [SocketDestroy].
    split; [by apply handleHandshake_penalized|]. simpl. split; split.
    - intros [Hin | []]. discriminate.
    - intros (Hcontra & _). discriminate.
    - intros _ (Hcontra & _). discriminate.
    - auto. }
  unfold handleHandshake. rewrite Hp. unfold async.
  erewrite bind_normal by (by apply sendToMasterAsync_answers).
  fold (isBlockedByRateLimit_request ip).
  monad_unfold. rewrite Hdata, Hblocked.
  destruct (truthy blocked) eqn:Hb; simpl.
  { eexists [_; SocketDestroy]. split; [by tidy|]. simpl. split; split.
    - intros [Hin | [Hin | []]]; discriminate.
    - intros (_ & Hcontra & _). discriminate.
    - intros _ (_ & Hcontra & _). discriminate.
    - auto. }
  destruct (includes (default [] (blacklist (config W))) ip) eqn:Hlist; simpl.
  { apply includes_In in Hlist.
    eexists [_; SocketDestroy]. split; [by tidy|]. simpl. split; split.
    - intros [Hin | [Hin | []]]; discriminate.
    - intros (_ & _ & Hcontra & _). done.
    - intros _ (_ & _ & Hcontra & _). done.
    - auto. }
  assert (Hnot : ~ In ip (default [] (blacklist (config W)))).
  { intros Hin%includes_In. congruence. }
  destruct (Z.ltb_spec (maxSameSubnetPeers (config W))
              (Z.of_nat (length (sameSubnetSockets server ip)))) as [Hfull|Hroom].
  - eexists [_; SocketDestroy]. split; [by tidy|]. simpl. split; split.
    + intros [Hin | [Hin | []]]; discriminate.
    + intros (_ & _ & _ & Hcontra). lia.
    + intros _ (_ & _ & _ & Hcontra). lia.
    + auto.
  - eexists [_; Next None]. split; [by tidy|]. simpl. split; split.
    + done.
    + auto.
    + intros [Hin | [Hin | []]]; discriminate.
    + intros Hcontra. exfalso. by apply Hcontra.
Qed.

End AdmissionDecision.

(** ** The steps of the authorization middleware *)

Section AuthorizationSteps.
Context `{Externals}.

(** X12. A call whose name is longer than 128 characters has its socket
    terminated without a message to the coordinator. A call whose name is
    not, and for which the coordinator answers that the rate limit is
    exceeded, or whose data lacks the basic format, has its socket
    terminated after that one round trip: the coordinator is not asked
    whether the application is ready. *)
Theorem calls_are_rejected_before_the_readiness_question (event ip : string)
  (w : world) :
  let asked := SendToMaster (getRateLimitStatus_request ip event) in
  ((128 < String.length event)%nat ->
   handleEmit event ip w = (Normal (), after w [SocketTerminate]))
  /\ ((String.length event <= 128)%nat ->
      forall exceeded,
        answers_field (getRateLimitStatus_request ip event)
          "exceededLimitOnEndpoint" exceeded ->
        (truthy exceeded = true ->
         handleEmit event ip w = (Normal (), after w [asked; SocketTerminate]))
        /\ (truthy exceeded = false ->
            lacks_basic_format (req_data w) = Normal true ->
            handleEmit event ip w = (Normal (), after w [asked; SocketTerminate]))).
Proof.
  intros asked. split.
  - intros Hlong. unfold handleEmit.
    assert (Nat.ltb 128 (String.length event) = true) as ->
      by (apply Nat.ltb_lt; lia).
    reflexivity.
  - intros Hshort exceeded (reply & data & Hans & Hdata & Hexceeded).
    assert (Hstart : forall rest : value -> M unit,
      (res ← sendToMasterAsync "p2p.internal.getRateLimitStatus"
               [("data", VObject [("ip", VString ip); ("endpoint", VString event)])];
       data ← lift (prop res "data");
       exceededLimitOnEndpoint ← lift (prop data "exceededLimitOnEndpoint");
       rest exceededLimitOnEndpoint) w
      = rest exceeded (after w [asked])).
    { intros rest.
      erewrite bind_normal by (by apply sendToMasterAsync_answers).
      unfold mbind, M_bind, lift. by rewrite Hdata, Hexceeded. }
    unfold handleEmit.
    assert (Nat.ltb 128 (String.length event) = false) as ->
      by (apply Nat.ltb_ge; lia).
    unfold async. rewrite Hstart. split.
    + intros ->. unfold mbind, M_bind, perform, return_. by tidy.
    + intros -> Hformat.
      unfold mbind at 1, M_bind at 1, get_data at 1.
      unfold mbind at 1, M_bind at 1, lift at 1. simpl req_data.
      rewrite Hformat. unfold mbind, M_bind, perform, return_. by tidy.
Qed.

(** X13. Past the preliminaries, a call whose name does not start with the
    segment p2p has its socket terminated without the readiness question.
    A call in the namespace p2p whose version is neither internal nor peer
    has its socket terminated once the application has been reported
    ready. *)
Theorem foreign_names_are_terminated (event ip : string) (w : world) :
  passes_preliminaries event ip w ->
  let asked := SendToMaster (getRateLimitStatus_request ip event) in
  (split_dot event !! 0%nat <> Some "p2p" ->
   handleEmit event ip w = (Normal (), after w [asked; SocketTerminate]))
  /\ (split_dot event !! 0%nat = Some "p2p" ->
      split_dot event !! 1%nat <> Some "internal" ->
      split_dot event !! 1%nat <> Some "peer" ->
      app_ready true ->
      handleEmit event ip w
      = (Normal (),
         after w [asked; SendToMaster isAppReady_request; SocketTerminate])).
Proof.
  intros Hpre asked.
  rewrite (handleEmit_past_preliminaries _ _ _ Hpre). fold asked. split.
  - intros Hprefix. unfold async.
    erewrite bind_returned.
    2: { unfold try_catch, authorize.
         rewrite (bool_decide_eq_false_2 _ Hprefix). reflexivity. }
    by tidy.
  - intros Hprefix Hinternal Hpeer Hready. unfold async.
    erewrite bind_returned.
    2: { unfold try_catch.
         rewrite authorize_when_ready by done.
         rewrite (bool_decide_eq_false_2 _ Hinternal).
         rewrite (bool_decide_eq_false_2 _ Hpeer).
         reflexivity. }
    by tidy.
Qed.

(** What the assignment of the address wrote is read back. *)
Lemma attachment_is_read_back ip d headers headers' d' :
  set_prop headers "remoteAddress" (VString ip) = Normal headers' ->
  set_prop d "headers" headers' = Normal d' ->
  carries_address ip d'.
Proof.
  intros Hset Hdata. exists headers'. split.
  - destruct d; simpl in Hdata; simplify_eq; simpl;
      by rewrite assoc_assign_same.
  - destruct headers; simpl in Hset; simplify_eq; simpl;
      by rewrite assoc_assign_same.
Qed.

Lemma attached_carries_address ip d d' :
  attached ip d d' -> carries_address ip d'.
Proof.
  intros (headers & headers' & _ & Hset & Hdata).
  by eapply attachment_is_read_back.
Qed.

(** The assignment of the address raises on headers that are null. *)
Lemma attach_remoteAddress_null ip w :
  prop (req_data w) "headers" = Normal VNull ->
  attach_remoteAddress ip w
  = (Thrown (TypeError "Cannot set properties of null (setting 'remoteAddress')"),
     w).
Proof.
  intros Hheaders. unfold attach_remoteAddress, mbind, M_bind, get_data, lift.
  by rewrite Hheaders.
Qed.

(** X14. Past the preliminaries and the readiness question, a call of the
    version internal depends on the answer of the coordinator about the
    forger and on its headers alone, and no notification about an accepted
    peer is sent. When the address is not authorized the socket is
    terminated. When it is and the headers are an object or an array, the
    address is assigned to [headers.remoteAddress], where it is read back,
    and [next()] is called. When it is and the headers are null, the
    assignment raises, the error is logged and the socket is terminated. *)
Theorem internal_calls_hinge_on_the_forger (event ip : string) (w : world)
  (authorized : value) :
  passes_preliminaries event ip w ->
  split_dot event !! 0%nat = Some "p2p" ->
  split_dot event !! 1%nat = Some "internal" ->
  app_ready true ->
  answers_field (isForgerAuthorized_request ip) "authorized" authorized ->
  let sent := [SendToMaster (getRateLimitStatus_request ip event);
               SendToMaster isAppReady_request;
               SendToMaster (isForgerAuthorized_request ip)] in
  (truthy authorized = false ->
   handleEmit event ip w = (Normal (), after w (sent ++ [SocketTerminate])))
  /\ (truthy authorized = true ->
      forall headers,
        prop (req_data w) "headers" = Normal headers ->
        is_nested headers ->
        exists headers' data',
          set_prop headers "remoteAddress" (VString ip) = Normal headers'
          /\ set_prop (req_data w) "headers" headers' = Normal data'
          /\ carries_address ip data'
          /\ handleEmit event ip w
             = (Normal (), with_data data' (after w (sent ++ [Next None]))))
  /\ (truthy authorized = true ->
      prop (req_data w) "headers" = Normal VNull ->
      handleEmit event ip w
      = (Normal (),
         after w (sent
                  ++ log_effects
                       (VString
                          "Cannot set properties of null (setting 'remoteAddress')")
                       "error"
                  ++ [SocketTerminate]))).
Proof.
  intros Hpre Hprefix Hversion Hready (reply & data & Hans & Hdata & Hauth) sent.
  assert (Hbranch : forall rest : M unit,
    (_ ← (res ← sendToMasterAsync "p2p.utils.isForgerAuthorized" [ip_data ip];
          data ← lift (prop res "data");
          authorized ← lift (prop data "authorized");
          if negb (truthy authorized) then
            _ ← perform SocketTerminate; return_
          else mret ());
     rest) (after w [SendToMaster (getRateLimitStatus_request ip event);
                     SendToMaster isAppReady_request])
    = if truthy authorized then rest (after w sent)
      else (Returned, after w (sent ++ [SocketTerminate]))).
  { intros rest. unfold mbind at 1, M_bind at 1.
    erewrite bind_normal by (by apply sendToMasterAsync_answers).
    fold (isForgerAuthorized_request ip).
    unfold mbind at 1, M_bind at 1, lift at 1. rewrite Hdata.
    unfold mbind at 1, M_bind at 1, lift at 1. rewrite Hauth.
    destruct (truthy authorized); simpl.
    - unfold mret, M_ret. by tidy.
    - unfold mbind, M_bind, perform, return_. by tidy. }
  assert (Hauthorize : forall w1,
    authorize event ip w1
    = (_ ← (res ← sendToMasterAsync "p2p.utils.isForgerAuthorized" [ip_data ip];
            data ← lift (prop res "data");
            authorized ← lift (prop data "authorized");
            if negb (truthy authorized) then
              _ ← perform SocketTerminate; return_
            else mret ());
       attach_remoteAddress ip) (after w1 [SendToMaster isAppReady_request])).
  { intros w1. rewrite authorize_when_ready by done. rewrite Hversion.
    by rewrite (bool_decide_eq_true_2 (Some "internal" = Some "internal") eq_refl). }
  split; [|split].
  - intros Hfalsy.
    rewrite (handleEmit_past_preliminaries _ _ _ Hpre). unfold async.
    erewrite bind_returned.
    2: { unfold try_catch. rewrite Hauthorize. tidy.
         rewrite Hbranch, Hfalsy. reflexivity. }
    reflexivity.
  - intros Htruthy headers Hheaders Hnested.
    destruct (attach_possible ip _ _ Hheaders Hnested)
      as (headers' & data' & Hset & Hdata').
    exists headers', data'. split; [done|]. split; [done|].
    split; [by eapply attachment_is_read_back|].
    rewrite (handleEmit_past_preliminaries _ _ _ Hpre). unfold async.
    erewrite bind_normal.
    2: { unfold try_catch. rewrite Hauthorize. tidy.
         rewrite Hbranch, Htruthy.
         erewrite attach_remoteAddress_runs;
           [reflexivity|exact Hheaders|exact Hset|exact Hdata']. }
    unfold perform. by tidy.
  - intros Htruthy Hheaders.
    erewrite handleEmit_catches; [|exact Hpre|].
    2: { rewrite Hauthorize. tidy. rewrite Hbranch, Htruthy.
         by apply attach_remoteAddress_null. }
    by tidy.
Qed.

Lemma authorize_peer_validated ip handler schema payload w1 :
  ~ privileged handler ->
  peer_schema handler schema ->
  truthy schema = true ->
  prop (req_data w1) "data" = Normal payload ->
  authorize_peer ip (Some handler) w1
  = match ajv_validate schema payload with
    | Invalid => (Returned, after w1 [SocketTerminate])
    | Valid => acceptNewPeer ip w1
    | AjvThrows message => (Thrown (Error message), w1)
    end.
Proof.
  intros Hpriv (by_handler & Hpeer & Hschema) Htruthy Hpayload.
  unfold authorize_peer.
  unfold mbind at 1, M_bind at 1, lift at 1. rewrite Hpeer.
  unfold mbind at 1, M_bind at 1, lift at 1. simpl key_of. rewrite Hschema.
  rewrite (bool_decide_eq_false_2 (Some handler = Some "postTransactions")).
  2: { intros [= ->]. apply Hpriv. by right. }
  rewrite (bool_decide_eq_false_2 (Some handler = Some "postBlock")).
  2: { intros [= ->]. apply Hpriv. by left. }
  rewrite Htruthy. simpl.
  unfold mbind at 1, M_bind at 1.
  unfold mbind at 1, M_bind at 1, get_data at 1.
  unfold mbind at 1, M_bind at 1, lift at 1. rewrite Hpayload.
  destruct (ajv_validate schema payload); reflexivity.
Qed.

(** X15. Past the preliminaries and the readiness question, a call of a
    peer handler other than the two privileged ones for which a schema is
    registered is validated against it. A payload the validator finds
    invalid terminates the socket, without a notification about an accepted
    peer. When the validator raises, the error is logged and the socket is
    terminated, again without a notification. A payload it finds valid is
    notified; then, when the headers of the call are an object or an array,
    the address is assigned to [headers.remoteAddress], where it is read
    back, and [next()] is called; when the headers are null, the assignment
    raises, the error is logged and the socket is terminated. *)
Theorem peer_calls_with_a_schema_are_validated (event ip handler : string)
  (w : world) (schema payload : value) :
  passes_preliminaries event ip w ->
  split_dot event = ["p2p"; "peer"; handler] ->
  handler <> "postBlock" ->
  handler <> "postTransactions" ->
  peer_schema handler schema ->
  truthy schema = true ->
  app_ready true ->
  prop (req_data w) "data" = Normal payload ->
  let sent := [SendToMaster (getRateLimitStatus_request ip event);
               SendToMaster isAppReady_request] in
  (ajv_validate schema payload = Invalid ->
   handleEmit event ip w = (Normal (), after w (sent ++ [SocketTerminate])))
  /\ (forall message,
        ajv_validate schema payload = AjvThrows message ->
        handleEmit event ip w
        = (Normal (),
           after w (sent ++ log_effects (VString message) "error"
                    ++ [SocketTerminate])))
  /\ (ajv_validate schema payload = Valid ->
      forall headers,
        prop (req_data w) "headers" = Normal headers ->
        is_nested headers ->
        exists headers' data',
          set_prop headers "remoteAddress" (VString ip) = Normal headers'
          /\ set_prop (req_data w) "headers" headers' = Normal data'
          /\ carries_address ip data'
          /\ handleEmit event ip w
             = (Normal (),
                with_data data'
                  (after w (sent ++ acceptNewPeer_effects ip headers
                            ++ [Next None]))))
  /\ (ajv_validate schema payload = Valid ->
      prop (req_data w) "headers" = Normal VNull ->
      handleEmit event ip w
      = (Normal (),
         after w (sent ++ acceptNewPeer_effects ip VNull
                  ++ log_effects
                       (VString
                          "Cannot set properties of null (setting 'remoteAddress')")
                       "error"
                  ++ [SocketTerminate]))).
Proof.
  intros Hpre Hsplit Hblock Htransactions Hschema Htruthy Hready Hpayload sent.
  subst sent.
  assert (Hpriv : ~ privileged handler) by (intros [-> | ->]; done).
  assert (Hauthorize : forall w1,
    authorize event ip w1
    = (_ ← authorize_peer ip (Some handler); attach_remoteAddress ip)
        (after w1 [SendToMaster isAppReady_request])).
  { intros w1. rewrite authorize_when_ready; [|by rewrite Hsplit|done].
    rewrite Hsplit. simpl lookup.
    rewrite (bool_decide_eq_false_2 (Some "peer" = Some "internal")) by done.
    by rewrite (bool_decide_eq_true_2 (Some "peer" = Some "peer") eq_refl). }
  set (w1 := after w [SendToMaster (getRateLimitStatus_request ip event);
                      SendToMaster isAppReady_request]).
  assert (Hpeer :
    authorize_peer ip (Some handler) w1
    = match ajv_validate schema payload with
      | Invalid => (Returned, after w1 [SocketTerminate])
      | Valid => acceptNewPeer ip w1
      | AjvThrows message => (Thrown (Error message), w1)
      end) by (by apply authorize_peer_validated).
  split; [|split; [|split]].
  - intros Hverdict. rewrite Hverdict in Hpeer.
    rewrite (handleEmit_past_preliminaries _ _ _ Hpre). unfold async.
    erewrite bind_returned.
    2: { unfold try_catch. rewrite Hauthorize. tidy. fold w1.
         erewrite bind_returned by exact Hpeer. reflexivity. }
    unfold w1. by tidy.
  - intros message Hverdict. rewrite Hverdict in Hpeer.
    erewrite handleEmit_catches; [|done|].
    2: { rewrite Hauthorize. tidy. fold w1.
         erewrite bind_thrown by exact Hpeer. reflexivity. }
    unfold w1. by tidy.
  - intros Hverdict headers Hheaders Hnested. rewrite Hverdict in Hpeer.
    destruct (attach_possible ip _ _ Hheaders Hnested)
      as (headers' & data' & Hset & Hdata').
    exists headers', data'. split; [done|]. split; [done|].
    split; [by eapply attachment_is_read_back|].
    rewrite (handleEmit_past_preliminaries _ _ _ Hpre). unfold async.
    erewrite bind_normal.
    2: { unfold try_catch. rewrite Hauthorize. tidy. fold w1.
         erewrite bind_normal.
         2: { rewrite Hpeer. by apply acceptNewPeer_runs. }
         erewrite attach_remoteAddress_runs;
           [reflexivity|exact Hheaders|exact Hset|exact Hdata']. }
    unfold perform, w1. by tidy.
  - intros Hverdict Hheaders. rewrite Hverdict in Hpeer.
    erewrite handleEmit_catches; [|done|].
    2: { rewrite Hauthorize. tidy. fold w1.
         erewrite bind_normal.
         2: { rewrite Hpeer. by apply acceptNewPeer_runs. }
         by apply attach_remoteAddress_null. }
    unfold w1. by tidy.
Qed.

End AuthorizationSteps.

(** ** The data of a call *)

Section DataOfTheCall.
Context `{Externals}.

Lemma keeps_ret {A : Type} (a : A) : keeps_data (mret a).
Proof. by intros w. Qed.

Lemma keeps_lift {A : Type} (o : outcome A) : keeps_data (lift o).
Proof. by intros w. Qed.

Lemma keeps_perform e : keeps_data (perform e).
Proof. by intros w. Qed.

Lemma keeps_get_data : keeps_data get_data.
Proof. by intros w. Qed.

Lemma keeps_return {A : Type} : keeps_data (@return_ A).
Proof. by intros w. Qed.

Lemma keeps_bind {A B : Type} (m : M A) (f : A -> M B) :
  keeps_data m -> (forall a, keeps_data (f a)) -> keeps_data (m ≫= f).
Proof.
  intros Hm Hf w. unfold mbind, M_bind. specialize (Hm w).
  destruct (m w) as [[a| |e] w1]; simpl in *; [|done..].
  by rewrite (Hf a w1).
Qed.

Lemma keeps_try_catch body handler :
  keeps_data body -> (forall e, keeps_data (handler e)) ->
  keeps_data (try_catch body handler).
Proof.
  intros Hb Hh w. unfold try_catch. specialize (Hb w).
  destruct (body w) as [[a| |e] w1]; simpl in *; [done..|].
  by rewrite (Hh e w1).
Qed.

Lemma keeps_async body : keeps_data body -> keeps_data (async body).
Proof.
  intros Hb w. unfold async. specialize (Hb w).
  by destruct (body w) as [[a| |e] w1].
Qed.

Lemma keeps_not_awaited {A : Type} (m : M A) :
  keeps_data m -> keeps_data (not_awaited m).
Proof. intros Hm w. apply Hm. Qed.

Lemma keeps_sendToMasterAsync endpoint data :
  keeps_data (sendToMasterAsync endpoint data).
Proof.
  intros w.
  by destruct (sendToMasterAsync_cases endpoint data w)
    as [(reply & _ & ->) | (err & _ & ->)].
Qed.

Lemma keeps_log message level : keeps_data (log message level).
Proof. intros w. by rewrite log_runs. Qed.

(** Applies the rules above along the structure of a method body. *)
Ltac keeps :=
  repeat lazymatch goal with
    | |- keeps_data (mbind _ _) => apply keeps_bind; [|intros ?]
    | |- keeps_data (mret _) => apply keeps_ret
    | |- keeps_data get_data => apply keeps_get_data
    | |- keeps_data return_ => apply keeps_return
    | |- keeps_data (perform _) => apply keeps_perform
    | |- keeps_data (lift _) => apply keeps_lift
    | |- keeps_data (sendToMasterAsync _ _) => apply keeps_sendToMasterAsync
    | |- keeps_data (log _ _) => apply keeps_log
    | |- keeps_data (not_awaited _) => apply keeps_not_awaited
    | |- keeps_data (try_catch _ _) => apply keeps_try_catch; [|intros ?]
    | |- keeps_data (async _) => apply keeps_async
    | |- keeps_data (match _ with _ => _ end) => case_match
    end.

Lemma keeps_acceptNewPeer ip : keeps_data (acceptNewPeer ip).
Proof. unfold acceptNewPeer. keeps. Qed.

Lemma keeps_authorize_peer ip handler : keeps_data (authorize_peer ip handler).
Proof. unfold authorize_peer. keeps. apply keeps_acceptNewPeer. Qed.

Lemma keeps_authorize_failed e : keeps_data (authorize_failed e).
Proof. unfold authorize_failed. keeps. Qed.

Lemma ends_attached_stop {A : Type} ip (last : effect) :
  ends_attached ip (_ ← perform last; @return_ A).
Proof. by intros w. Qed.

Lemma ends_attached_bind {A B : Type} ip (m : M A) (f : A -> M B) :
  keeps_data m -> (forall a, ends_attached ip (f a)) ->
  ends_attached ip (m ≫= f).
Proof.
  intros Hm Hf w. unfold mbind, M_bind. specialize (Hm w).
  destruct (m w) as [[a| |e] w1]; simpl in *; [|done..].
  specialize (Hf a w1). rewrite Hm in Hf. done.
Qed.

Lemma ends_attached_attach_remoteAddress ip :
  ends_attached ip (attach_remoteAddress ip).
Proof.
  intros w. unfold attach_remoteAddress, mbind, M_bind, get_data, lift, put_data.
  destruct (prop (req_data w) "headers") as [headers| |e] eqn:Hh; [|done..].
  destruct (set_prop headers _ _) as [headers'| |e] eqn:Hset; [|done..].
  destruct (set_prop (req_data w) _ _) as [data'| |e] eqn:Hdata; [|done..].
  simpl. by exists headers, headers'.
Qed.

Lemma ends_attached_authorize event ip : ends_attached ip (authorize event ip).
Proof.
  unfold authorize.
  repeat first
    [ apply ends_attached_stop
    | apply ends_attached_attach_remoteAddress
    | apply ends_attached_bind; [keeps; apply keeps_authorize_peer|intros ?]
    | case_match ].
Qed.

Lemma no_next_after_stop w w' q last :
  effects w' = effects w ++ q ++ [last] -> quiet q -> last <> Next None ->
  ~ calls_next w w'.
Proof.
  intros Heff Hq Hlast (es & Hes & Hin). rewrite Heff in Hes.
  apply app_inv_head in Hes. subst es.
  apply in_app_or in Hin as [Hin | [Hin | []]]; [|done].
  unfold quiet in Hq. rewrite Forall_forall in Hq.
  apply (Hq (Next None)). by apply list_elem_of_In.
Qed.

Lemma no_next_in_quiet w w' q :
  effects w' = effects w ++ q -> quiet q -> ~ calls_next w w'.
Proof.
  intros Heff Hq (es & Hes & Hin). rewrite Heff in Hes.
  apply app_inv_head in Hes. subst es.
  unfold quiet in Hq. rewrite Forall_forall in Hq.
  apply (Hq (Next None)). by apply list_elem_of_In.
Qed.

Ltac stops q last :=
  apply (no_next_after_stop _ _ q last);
  [simpl; by rewrite <- ?app_assoc|by repeat constructor|done].

Ltac raises q :=
  apply (no_next_in_quiet _ _ q);
  [simpl; by rewrite <- ?app_assoc|by repeat constructor].

(** Every run of [handleEmit] either calls [next()], with the address
    attached, or does not and leaves [req.data] as it was. *)
Lemma handleEmit_data event ip w o w' :
  handleEmit event ip w = (o, w') ->
  (calls_next w w' /\ o = Normal ()
   /\ attached ip (req_data w) (req_data w'))
  \/ (~ calls_next w w' /\ req_data w' = req_data w).
Proof.
  unfold handleEmit, async.
  destruct (Nat.ltb 128 (String.length event)).
  { simpl. intros [= <- <-]. right. split; [|done].
    stops (@nil effect) SocketTerminate. }
  set (asked := SendToMaster (getRateLimitStatus_request ip event)).
  assert (Hasked : quiet [asked]) by (by repeat constructor).
  destruct (sendToMasterAsync_cases "p2p.internal.getRateLimitStatus"
              [("data", VObject [("ip", VString ip); ("endpoint", VString event)])] w)
    as [(reply & _ & Hrun) | (err & _ & Hrun)].
  2: { erewrite bind_thrown by exact Hrun. intros [= <- <-]. right.
       split; [|done]. raises [asked]. }
  erewrite bind_normal by exact Hrun. fold (getRateLimitStatus_request ip event).
  fold asked.
  unfold mbind at 1, M_bind at 1, lift at 1.
  destruct (prop reply "data") as [d| |e].
  2,3: intros [= <- <-]; right; split; [|done]; raises [asked].
  unfold mbind at 1, M_bind at 1, lift at 1.
  destruct (prop d "exceededLimitOnEndpoint") as [exceeded| |e].
  2,3: intros [= <- <-]; right; split; [|done]; raises [asked].
  destruct (truthy exceeded).
  { simpl. intros [= <- <-]. right. split; [|done].
    stops [asked] SocketTerminate. }
  unfold mbind at 1, M_bind at 1, get_data at 1.
  unfold mbind at 1, M_bind at 1, lift at 1.
  destruct (lacks_basic_format _) as [[|]| |e].
  2: {
    unfold mbind, M_bind, try_catch.
    pose proof (shaped_authorize event ip (after w [asked])) as (q & Hq & Hshape).
    pose proof (ends_attached_authorize event ip (after w [asked])) as Hdata.
    destruct (authorize event ip (after w [asked])) as [[[]| |e] w1];
      simpl in Hshape, Hdata.
    - simpl. intros [= <- <-]. left. split; [|done].
      exists (asked :: q ++ [Next None]). split.
      + simpl. rewrite Hshape. by rewrite <- !app_assoc.
      + right. apply in_or_app. right. by left.
    - destruct Hshape as (last & Hlast & Hw1). intros [= <- <-]. right.
      split; [|done].
      apply (no_next_after_stop _ _ (asked :: q) last).
      + rewrite Hw1. simpl. by rewrite <- !app_assoc.
      + by constructor.
      + by destruct Hlast as [-> | ->].
    - destruct Hshape as [He Hw1].
      rewrite (authorize_failed_runs e w1 He). intros [= <- <-]. right.
      split; [|done].
      apply (no_next_after_stop _ _
               (asked :: q ++ log_effects (message_of e) "error") SocketTerminate);
        [|constructor; [done|apply quiet_app; [done|apply quiet_log_effects]]
         |done].
      simpl. rewrite Hw1. simpl. by rewrite <- !app_assoc. }
  - simpl. intros [= <- <-]. right. split; [|done].
    stops [asked] SocketTerminate.
  - intros [= <- <-]. right. split; [|done]. raises [asked].
  - intros [= <- <-]. right. split; [|done]. raises [asked].
Qed.

(** X16. [handleEmit] changes [req.data] only in the runs in which it calls
    [next()]: there [req.data] is the data the call came with, with the
    caller's address assigned to [headers.remoteAddress], be the headers an
    object or an array, so that reading [req.data.headers.remoteAddress]
    gives the address; in every other run, completed or failed, [req.data]
    is left as it was. *)
Theorem next_is_called_with_the_address (event ip : string) (w w' : world)
  (o : outcome unit) :
  handleEmit event ip w = (o, w') ->
  (calls_next w w' ->
   attached ip (req_data w) (req_data w') /\ carries_address ip (req_data w'))
  /\ (~ calls_next w w' -> req_data w' = req_data w).
Proof.
  intros [(Hnext & _ & Hattached) | (Hnext & Hdata)]%handleEmit_data.
  - split; [|intros Hno; by destruct Hno].
    intros _. split; [done|]. by eapply attached_carries_address.
  - split; [|done]. intros Hyes. by destruct Hnext.
Qed.

End DataOfTheCall.

(** ** Logging and the notification about an accepted peer *)

Section Logging.
Context `{Externals}.

(** X17. [this.log] never raises and leaves [req.data] alone: it sends one
    message to the coordinator, and when the coordinator rejects it, it
    writes one line that quotes the message to the console and does nothing
    more. *)
Theorem log_never_raises (message : value) (level : string) (w : world) :
  let sent := SendToMaster (log_request message level) in
  (log message level w).1 = Normal ()
  /\ req_data (log message level w).2 = req_data w
  /\ ((exists reply, answers (log_request message level) reply) ->
      effects (log message level w).2 = effects w ++ [sent])
  /\ ((exists err, rejects (log_request message level) err) ->
      effects (log message level w).2
      = effects w
        ++ [sent;
            ConsoleError ("Error while trying to log the following message: "
                          +:+ ToString message)]).
Proof.
  intros sent. rewrite log_runs. unfold log_effects. simpl.
  split; [done|]. split; [done|]. split.
  - intros (reply & err & Hsend & Herr). rewrite Hsend. simpl. by rewrite Herr.
  - intros (err & res & Hsend & Herr). rewrite Hsend. simpl. by rewrite Herr.
Qed.

(** X18. The notification about an accepted peer is detached: when the
    headers of the call can be read it never raises and never touches the
    socket, [next] or [req.data], whatever the coordinator does with it. An
    answered notification is one message; a rejected one is followed by a
    debug-level log entry that names the address and the message of the
    error. *)
Theorem notification_failures_are_logged (ip : string) (headers : value)
  (w : world) :
  prop (req_data w) "headers" = Normal headers ->
  let sent := SendToMaster (acceptNewPeer_request ip headers) in
  exists es,
    acceptNewPeer ip w = (Normal (), after w (sent :: es))
    /\ quiet es
    /\ ((exists reply, answers (acceptNewPeer_request ip headers) reply) ->
        es = [])
    /\ (forall err,
          rejects (acceptNewPeer_request ip headers) err ->
          es = log_effects
                 (VString ("Failed to accept new peer " +:+ ip +:+ ": "
                           +:+ ToString (message_of err)))
                 "debug").
Proof.
  intros Hh sent. rewrite (acceptNewPeer_runs ip headers w Hh).
  unfold acceptNewPeer_effects. fold sent.
  eexists. split; [reflexivity|]. split.
  { repeat case_match; try apply quiet_log_effects; apply quiet_nil. }
  split.
  - intros (reply & err & Hsend & Herr). rewrite Hsend. simpl. by rewrite Herr.
  - intros err (res & Hsend & Herr). rewrite Hsend. simpl. rewrite Herr.
    unfold message_of. by rewrite (message_of_truthy err Herr).
Qed.

End Logging.

(** ** Concrete runs of the further properties *)

(** The frame that announces a disconnect is let through on a fresh
    socket. *)
Lemma accepted_frames_are_well_formed_witness :
  terminated fresh_ws = false
  /\ terminated
       (@handlePayload_message (Demo.externals []) 1000 "10.0.0.3"
          Demo.disconnect_text (Demo.worker ∅, fresh_ws)).2 = false
  /\ (Demo.disconnect_text = "#2"
      \/ ((10 <= String.length Demo.disconnect_text)%nat
          /\ exists parsed event,
               @JSON_parse (Demo.externals []) Demo.disconnect_text = Some parsed
               /\ prop parsed "event" = Normal (VString event)
               /\ (event = "#disconnect" \/ event = "#handshake"
                   \/ well_formed_call (Demo.worker ∅) parsed event))).
Proof.
  split; [reflexivity|]. split; [reflexivity|].
  apply (@accepted_frames_are_well_formed (Demo.externals []) 1000 "10.0.0.3"
           Demo.disconnect_text (Demo.worker ∅) fresh_ws); reflexivity.
Defined.

(** Heartbeats at a clock reading of the year 2023: one that follows 999
    milliseconds later is a violation, one that follows 1000 milliseconds
    later is not. Outside the range of the theorem the comparison can
    differ: in double precision the readings 1 and 1001, 1000 milliseconds
    apart, are less than 1 apart. *)
Lemma heartbeats_are_spaced_witness :
  _disconnected fresh_ws = false
  /\ ping_within_second 1001 1 = true
  /\ (ipLastError
        (@handlePayload_message (Demo.externals []) 1700000000999 "10.0.0.3" "#2"
           (@handlePayload_message (Demo.externals []) 1700000000000 "10.0.0.3"
              "#2" (Demo.worker ∅, fresh_ws))).1
      !! "10.0.0.3" = Some 1700000000999
      /\ terminated
           (@handlePayload_message (Demo.externals []) 1700000000999 "10.0.0.3"
              "#2"
              (@handlePayload_message (Demo.externals []) 1700000000000
                 "10.0.0.3" "#2" (Demo.worker ∅, fresh_ws))).2 = true)
  /\ terminated
       (@handlePayload_message (Demo.externals []) 1700000001000 "10.0.0.3" "#2"
          (@handlePayload_message (Demo.externals []) 1700000000000 "10.0.0.3"
             "#2" (Demo.worker ∅, fresh_ws))).2
     = terminated
         (@handlePayload_message (Demo.externals []) 1700000000000 "10.0.0.3"
            "#2" (Demo.worker ∅, fresh_ws)).2.
Proof.
  split; [reflexivity|].
  split; [vm_compute; reflexivity|].
  split.
  - apply (proj1 (proj2 (proj2 (proj2 (proj2 (proj2
      (@heartbeats_are_spaced (Demo.externals []) (Demo.worker ∅) fresh_ws
         1700000000000 1700000000999 "10.0.0.3" eq_refl)))))
      ltac:(lia) ltac:(lia))).
    lia.
  - apply (proj2 (proj2 (proj2 (proj2 (proj2 (proj2
      (@heartbeats_are_spaced (Demo.externals []) (Demo.worker ∅) fresh_ws
         1700000000000 1700000001000 "10.0.0.3" eq_refl)))))
      ltac:(lia) ltac:(lia))).
    lia.
Defined.

(** The first announcement of the handshake sets the flag. *)
Lemma handshake_is_announced_once_witness :
  prop (VObject [("event", VString "#handshake"); ("unknown", VNumber 1)]) "event"
  = Normal (VString "#handshake")
  /\ @on_frame (Demo.externals []) 1000 "10.0.0.3"
       (VObject [("event", VString "#handshake"); ("unknown", VNumber 1)])
       (Demo.worker ∅, fresh_ws)
     = (Demo.worker ∅, set_handshake fresh_ws).
Proof.
  split; [reflexivity|].
  apply (proj1
    (@handshake_is_announced_once (Demo.externals []) (Demo.worker ∅) fresh_ws
       1000 "10.0.0.3"
       (VObject [("event", VString "#handshake"); ("unknown", VNumber 1)])
       eq_refl)); reflexivity.
Defined.

(** The coordinator lists two handlers of the version peer. *)
Lemma loadHandlers_loads_every_entry_witness :
  let E := Demo.externals
             [("p2p.utils.getHandlers",
               Demo.reply "peer"
                 (VArray [VString "getPeers"; VString "postBlock"] []))] in
  let W := set_handlers [] (Demo.worker ∅) in
  let W' := set_handlers ["p2p.peer.getPeers"; "p2p.peer.postBlock"] (Demo.worker ∅) in
  let w := Demo.empty_world VUndefined in
  let w' := after w [SendToMaster (request "p2p.utils.getHandlers" [])] in
  @loadHandlers E W w = (Normal (), W', w')
  /\ exists reply data entries,
       @answers E (request "p2p.utils.getHandlers" []) reply
       /\ prop reply "data" = Normal data
       /\ Object_entries data = Normal entries
       /\ (forall name,
             In name (handlers W')
             <-> In name (handlers W)
                 \/ exists version handlers handler,
                      In (version, handlers) entries
                      /\ In handler (own_properties handlers).*2
                      /\ name = handler_name version handler).
Proof.
  intros E W W' w w'.
  assert (Hrun : @loadHandlers E W w = (Normal (), W', w')) by reflexivity.
  split; [exact Hrun|].
  exact (@loadHandlers_loads_every_entry E W W' w w' Hrun).
Defined.

(** An address of a network that hosts as many sockets as the maximum is
    admitted. *)
Lemma admission_decides_on_four_checks_witness :
  @answers_field (Demo.externals []) (isBlockedByRateLimit_request "10.0.0.3")
    "blocked" VUndefined
  /\ exists added,
       @handleHandshake (Demo.externals []) (Demo.worker ∅) Demo.server 100000
         "10.0.0.3" (Demo.empty_world VUndefined)
       = (Normal (), after (Demo.empty_world VUndefined) added)
       /\ In (Next None) added.
Proof.
  assert (Hblocked : @answers_field (Demo.externals [])
                       (isBlockedByRateLimit_request "10.0.0.3") "blocked" VUndefined)
    by concrete.
  split; [exact Hblocked|].
  destruct (@admission_decides_on_four_checks (Demo.externals []) (Demo.worker ∅)
              Demo.server 100000 "10.0.0.3" (Demo.empty_world VUndefined)
              VUndefined Hblocked)
    as (added & Hrun & Hnext & _).
  exists added. split; [exact Hrun|]. apply Hnext.
  split; [reflexivity|]. split; [reflexivity|].
  split; [intros []|vm_compute; discriminate].
Defined.

(** A call outside the namespace p2p. *)
Lemma foreign_names_are_terminated_witness :
  @passes_preliminaries (Demo.answering true true)
    "chat.peer.getPeers" "10.0.0.3" Demo.call_world
  /\ @handleEmit (Demo.answering true true)
       "chat.peer.getPeers" "10.0.0.3" Demo.call_world
     = (Normal (),
        after Demo.call_world
          [SendToMaster (getRateLimitStatus_request "10.0.0.3" "chat.peer.getPeers");
           SocketTerminate]).
Proof.
  assert (Hpre : @passes_preliminaries (Demo.answering true true)
                   "chat.peer.getPeers" "10.0.0.3" Demo.call_world)
    by concrete.
  split; [exact Hpre|].
  apply (proj1
    (@foreign_names_are_terminated (Demo.answering true true)
       "chat.peer.getPeers" "10.0.0.3" Demo.call_world Hpre)).
  vm_compute. discriminate.
Defined.

(** An internal call from an address the coordinator does not take for a
    forger. *)
Lemma internal_calls_hinge_on_the_forger_witness :
  let E := Demo.externals
             [("p2p.utils.isAppReady", Demo.reply "ready" (VBool true));
              ("p2p.utils.isForgerAuthorized",
               Demo.reply "authorized" (VBool false))] in
  @passes_preliminaries E "p2p.internal.emitEvent" "10.0.0.3" Demo.call_world
  /\ @handleEmit E "p2p.internal.emitEvent" "10.0.0.3" Demo.call_world
     = (Normal (),
        after Demo.call_world
          [SendToMaster (getRateLimitStatus_request "10.0.0.3" "p2p.internal.emitEvent");
           SendToMaster isAppReady_request;
           SendToMaster (isForgerAuthorized_request "10.0.0.3");
           SocketTerminate]).
Proof.
  intros E.
  assert (Hpre : @passes_preliminaries E "p2p.internal.emitEvent" "10.0.0.3"
                   Demo.call_world)
    by concrete.
  assert (Hready : @app_ready E true) by concrete.
  assert (Hforger : @answers_field E (isForgerAuthorized_request "10.0.0.3")
                      "authorized" (VBool false))
    by concrete.
  split; [exact Hpre|].
  exact (proj1
    (@internal_calls_hinge_on_the_forger E "p2p.internal.emitEvent" "10.0.0.3"
       Demo.call_world (VBool false) Hpre eq_refl eq_refl Hready Hforger)
    eq_refl).
Defined.

(** A call of getPeers, for which a schema is registered, with a payload
    the validator accepts and headers that are an empty array. *)
Lemma peer_calls_with_a_schema_are_validated_witness :
  let w := Demo.empty_world
             (VObject [("data", VObject []); ("headers", VArray [] [])]) in
  @passes_preliminaries (Demo.answering true false)
    "p2p.peer.getPeers" "10.0.0.3" w
  /\ @peer_schema (Demo.answering true false) "getPeers"
       (VObject [("type", VString "object")])
  /\ exists headers' data',
       set_prop (VArray [] []) "remoteAddress" (VString "10.0.0.3")
       = Normal headers'
       /\ set_prop (req_data w) "headers" headers' = Normal data'
       /\ carries_address "10.0.0.3" data'
       /\ @handleEmit (Demo.answering true false)
            "p2p.peer.getPeers" "10.0.0.3" w
          = (Normal (),
             with_data data'
               (after w
                  ([SendToMaster
                      (getRateLimitStatus_request "10.0.0.3" "p2p.peer.getPeers");
                    SendToMaster isAppReady_request]
                   ++ @acceptNewPeer_effects (Demo.answering true false)
                        "10.0.0.3" (VArray [] [])
                   ++ [Next None]))).
Proof.
  intros w.
  assert (Hpre : @passes_preliminaries (Demo.answering true false)
                   "p2p.peer.getPeers" "10.0.0.3" w)
    by concrete.
  assert (Hschema : @peer_schema (Demo.answering true false) "getPeers"
                      (VObject [("type", VString "object")]))
    by concrete.
  assert (Hready : @app_ready (Demo.answering true false) true) by concrete.
  split; [exact Hpre|]. split; [exact Hschema|].
  exact (proj1 (proj2 (proj2
    (@peer_calls_with_a_schema_are_validated (Demo.answering true false)
       "p2p.peer.getPeers" "10.0.0.3" "getPeers" w
       (VObject [("type", VString "object")]) (VObject [])
       Hpre eq_refl ltac:(discriminate) ltac:(discriminate) Hschema eq_refl
       Hready eq_refl)))
    eq_refl (VArray [] []) eq_refl I).
Defined.

(** A call whose headers are an empty array goes on to [next()] with the
    address assigned to the array. *)
Lemma next_is_called_with_the_address_witness :
  let w := Demo.empty_world
             (VObject [("data", VObject []); ("headers", VArray [] [])]) in
  let run := @handleEmit (Demo.answering true false)
               "p2p.peer.getPeers" "10.0.0.3" w in
  run = (run.1, run.2)
  /\ calls_next w run.2
  /\ attached "10.0.0.3" (req_data w) (req_data run.2)
  /\ carries_address "10.0.0.3" (req_data run.2)
  /\ req_data run.2
     = VObject [("data", VObject []);
                ("headers", VArray [] [("remoteAddress", VString "10.0.0.3")])].
Proof.
  intros w run.
  assert (Hrun : run = (run.1, run.2)) by reflexivity.
  assert (Hnext : calls_next w run.2).
  { exists [SendToMaster (getRateLimitStatus_request "10.0.0.3" "p2p.peer.getPeers");
            SendToMaster isAppReady_request;
            SendToMaster (acceptNewPeer_request "10.0.0.3" (VArray [] []));
            Next None].
    split; [reflexivity|]. do 3 right. by left. }
  split; [exact Hrun|]. split; [exact Hnext|].
  destruct (proj1
    (@next_is_called_with_the_address (Demo.answering true false)
       "p2p.peer.getPeers" "10.0.0.3" w run.2 run.1 Hrun)
    Hnext) as [Hattached Hcarries].
  split; [exact Hattached|]. split; [exact Hcarries|reflexivity].
Defined.

(** A notification the coordinator rejects. *)
Lemma notification_failures_are_logged_witness :
  let E := Demo.failing "p2p.internal.acceptNewPeer" in
  let headers := VObject [("version", VString "2.0.0")] in
  prop (req_data Demo.call_world) "headers" = Normal headers
  /\ exists es,
       @acceptNewPeer E "10.0.0.3" Demo.call_world
       = (Normal (),
          after Demo.call_world
            (SendToMaster (acceptNewPeer_request "10.0.0.3" headers) :: es))
       /\ es = @log_effects E
                 (VString "Failed to accept new peer 10.0.0.3: coordinator unavailable")
                 "debug".
Proof.
  intros E headers.
  destruct (@notification_failures_are_logged E "10.0.0.3" headers
              Demo.call_world eq_refl)
    as (es & Hrun & _ & _ & Hrejected).
  split; [reflexivity|]. exists es. split; [exact Hrun|].
  apply (Hrejected (Error "coordinator unavailable")).
  by eexists.
Defined.
